(** * akasha: document search, merge and budget (search.py)

    A shallow embedding of [src/search.py] and proofs about it.

    - Python [int]s that may be negative ([topK], [k], array rows) are [Z];
      counts that the code only ever adds to ([cur_count]) are [nat].
    - Python lists are [list]; [dict]s with string keys are [gmap string _].
    - A call that may raise returns a [result]; the two caller-visible sinks
      ([logs], a list the caller owns, and standard output) are threaded
      explicitly as a [Sinks] record.
    - Scores are rationals ([Q]): the claims proved here concern order,
      counts and thresholds, never rounding.
    - The services the module calls but does not define (the embedding
      function, the linear SVM solver, numpy's argsort, the TF-IDF scorer,
      the vector store's MMR search, the jieba segmenter) are the fields of
      the [Services] class. *)

From Stdlib Require Import ZArith QArith Qminmax Lia Lqa Sorted.
From Stdlib Require Import Ascii String DecimalString.
From stdpp Require Import base decidable option list gmap strings.

Local Open Scope string_scope.
Local Open Scope Z_scope.

(** ** Python primitives *)

Module Py.

Inductive exn := ValueError | IndexError.

Inductive result (A : Type) :=
| Ok (a : A)
| Raise (e : exn).
Arguments Ok {A} a.
Arguments Raise {A} e.

Definition bind {A B} (m : result A) (f : A -> result B) : result B :=
  match m with
  | Ok a => f a
  | Raise e => Raise e
  end.

(** [l[i]] for a possibly negative [i]: a negative index counts from the
    end; out of range raises [IndexError]. *)
Definition index {A} (l : list A) (i : Z) : result A :=
  let n := Z.of_nat (length l) in
  let j := if i <? 0 then i + n else i in
  if (j <? 0) || (n <=? j) then Raise IndexError
  else match l !! Z.to_nat j with
       | Some a => Ok a
       | None => Raise IndexError
       end.

(** A slice bound clamped the way [l[a:b]] does: negative bounds count from
    the end, then everything is cut to [0..len]. *)
Definition clamp (n i : Z) : nat :=
  let j := if i <? 0 then i + n else i in
  Z.to_nat (Z.min n (Z.max 0 j)).

(** [l[start:stop]]. *)
Definition slice {A} (l : list A) (start stop : Z) : list A :=
  let n := Z.of_nat (length l) in
  let a := clamp n start in
  let b := clamp n stop in
  take (b - a)%nat (drop a l).

(** [str(n)] for a non-negative [int]. *)
Definition str (n : nat) : string := NilZero.string_of_uint (Nat.to_uint n).

(** [c.isspace()] on the ASCII range: tab, line feed, vertical tab, form
    feed, carriage return, the four separators 0x1c-0x1f, and space. *)
Definition isspace (c : ascii) : bool :=
  let n := nat_of_ascii c in
  ((9 <=? n) && (n <=? 13) || (28 <=? n) && (n <=? 32))%nat.

(** [s.split()] with no argument: the maximal runs of non-blank characters.
    [cur] is the word being read, in reverse. *)
Fixpoint split_go (s : string) (cur : list ascii) : list string :=
  let flush (rest : list string) :=
    match cur with
    | [] => rest
    | _ => string_of_list_ascii (rev cur) :: rest
    end in
  match s with
  | EmptyString => flush []
  | String c s' =>
      if isspace c then flush (split_go s' [])
      else split_go s' (c :: cur)
  end.

Definition split (s : string) : list string := split_go s [].

End Py.

Import Py.

(** [x ← m; k] runs [m] and stops at the first exception. *)
#[global] Instance result_bind : MBind result := fun _ _ f m => Py.bind m f.

(** ** Documents and the two sinks *)

(** A metadata value as the vector store keeps it. *)
Inductive meta_value :=
| MStr (s : string)
| MInt (n : Z)
| MBool (b : bool).

#[global] Instance meta_value_eq_dec : EqDecision meta_value.
Proof. solve_decision. Defined.

(** [langchain.schema.Document]: compared by value, field by field. *)
Record Document := mkDocument {
  page_content : string;
  metadata : gmap string meta_value
}.

#[global] Instance Document_eq_dec : EqDecision Document.
Proof. solve_decision. Defined.

(** What a call leaves behind: the caller's [logs] list and what was
    printed. *)
Record Sinks := mkSinks {
  logs : list string;
  stdout : list string
}.

Definition newline : string := String (ascii_of_nat 10) EmptyString.

(** [logs.append(msg)] *)
Definition logs_append (msg : string) (w : Sinks) : Sinks :=
  {| logs := logs w ++ [msg]; stdout := stdout w |}.

(** [print(a)] and [print(a, b)]: the arguments joined by one space, then a
    line feed. *)
Definition print (args : list string) (w : Sinks) : Sinks :=
  {| logs := logs w;
     stdout := stdout w ++ [String.concat " " args ++ newline] |}.

(** ** The services search.py calls *)

(** The rows of the vector store that [db.get(include=[...])] returns,
    index-aligned. *)
Record DB := mkDB {
  documents : list string;
  metadatas : list (gmap string meta_value);
  embeddings : list (list Q)
}.

Class Services := {
  (** [embeddings.embed_query] *)
  embed_query : string -> list Q;
  (** [svm.LinearSVC(...).fit(x, y)] followed by [decision_function(x)]:
      one signed distance per row of [x], or the exception [fit] raised. *)
  linear_svc : list (list Q) -> list Z -> result (list Q);
  (** [np.argsort]: the indices that sort the keys in increasing order. *)
  argsort : list Q -> list Z;
  (** The TF-IDF vectorizer and [cosine_similarity]: one score per corpus
      text against the query, or the exception the vectorizer raised. *)
  tfidf_scores : list string -> string -> result (list Q);
  (** [db.as_retriever(search_type="mmr", search_kwargs=...)
      .get_relevant_documents(query)] *)
  mmr_search : DB -> string -> Z -> option Q -> result (list Document);
  (** [jieba.cut] *)
  jieba_cut : string -> list string
}.

(** ** _merge_docs *)

Section Merge.
Context `{Services}.

(** How the inner loop body ends: it falls through to the next list, or it
    returns from the function with the sinks as the early exit left them. *)
Inductive flow :=
| Continue (res : list Document) (cur_count : nat)
| Return (res : list Document) (w : Sinks).

(** The lines that end both exits: print when verbose, then append to
    [logs]. *)
Definition log_words (verbose : bool) (cur_count : nat) (w : Sinks) : Sinks :=
  let w := if verbose then print ["words length: "; str cur_count] w else w in
  logs_append ("words length: " ++ str cur_count) w.

(** The body of [for docs in docs_list] at round [i]. *)
Definition merge_body (language : string) (verbose : bool) (w : Sinks)
    (i : nat) (docs : list Document) (res : list Document) (cur_count : nat)
    : flow :=
  match docs !! i with
  | None => Continue res cur_count
  | Some d =>
      if decide (d ∈ res) then Continue res cur_count
      else if decide (language = "ch") then
        let words_len := length (jieba_cut (page_content d)) in
        if (1800 <? cur_count + words_len)%nat
        then Return res (log_words verbose cur_count w)
        else Continue (res ++ [d]) (cur_count + words_len)
      else
        let words_len := length (split (page_content d)) in
        if (3000 <? cur_count + words_len)%nat
        then Return res (log_words verbose cur_count w)
        else Continue (res ++ [d]) (cur_count + words_len)
  end.

(** [for docs in docs_list: ...] at round [i]. *)
Fixpoint merge_inner (language : string) (verbose : bool) (w : Sinks)
    (i : nat) (docs_list : list (list Document))
    (res : list Document) (cur_count : nat) : flow :=
  match docs_list with
  | [] => Continue res cur_count
  | docs :: rest =>
      match merge_body language verbose w i docs res cur_count with
      | Continue res' cur' => merge_inner language verbose w i rest res' cur'
      | Return res' w' => Return res' w'
      end
  end.

(** [for i in rounds: for docs in docs_list: ...] *)
Fixpoint merge_outer (language : string) (verbose : bool) (w : Sinks)
    (rounds : list nat) (docs_list : list (list Document))
    (res : list Document) (cur_count : nat) : flow :=
  match rounds with
  | [] => Continue res cur_count
  | i :: later =>
      match merge_inner language verbose w i docs_list res cur_count with
      | Continue res' cur' =>
          merge_outer language verbose w later docs_list res' cur'
      | Return res' w' => Return res' w'
      end
  end.

(** [range(n)]: empty when [n <= 0]. *)
Definition range (n : Z) : list nat := seq 0 (Z.to_nat n).

Definition _merge_docs (docs_list : list (list Document)) (topK : Z)
    (language : string) (verbose : bool) (w : Sinks)
    : list Document * Sinks :=
  match merge_outer language verbose w (range topK) docs_list [] 0%nat with
  | Return res w' => (res, w')
  | Continue res cur_count => (res, log_words verbose cur_count w)
  end.

(** The names the statements use for what the two branches compute. *)
Definition budget (language : string) : nat :=
  if decide (language = "ch") then 1800%nat else 3000%nat.

Definition words_len (language : string) (d : Document) : nat :=
  if decide (language = "ch") then length (jieba_cut (page_content d))
  else length (split (page_content d)).

Definition total_words (language : string) (res : list Document) : nat :=
  sum_list_with (words_len language) res.

End Merge.

(** ** _get_relevant_doc_svm *)

Section Retrievers.
Context `{Services}.

(** [np.concatenate([query_embeds[None, ...], indx['embeddings']])]: the
    query as a one-row matrix on top of the corpus matrix. A corpus with no
    rows is a one-dimensional empty array, which cannot be stacked under a
    two-dimensional one; neither can rows of another width. *)
Definition np_concatenate (query_embeds : list Q) (corpus : list (list Q))
    : result (list (list Q)) :=
  match corpus with
  | [] => Raise ValueError
  | _ =>
      if forallb (λ row, length row =? length query_embeds)%nat corpus
      then Ok (query_embeds :: corpus)
      else Raise ValueError
  end.

(** [np.where(a == v)[0][0]]: the first position holding [v]. *)
Definition where_first (v : Z) (a : list Z) : result nat :=
  match list_find (λ x, x = v) a with
  | Some (i, _) => Ok i
  | None => Raise IndexError
  end.

(** Lines 64-66: find row 0 (the query) in the sorted order and exchange it
    with whatever holds the first slot. *)
Definition put_query_first (sorted_ix : list Z) : result (list Z) :=
  zero_index ← where_first 0 sorted_ix;
  if decide (zero_index ≠ 0%nat) then
    match sorted_ix !! zero_index, sorted_ix !! 0%nat with
    | Some at_zero_index, Some at_0 =>
        Ok (<[zero_index := at_0]> (<[0%nat := at_zero_index]> sorted_ix))
    | _, _ => Raise IndexError
    end
  else Ok sorted_ix.

(** [np.max] and [np.min]: a [ValueError] on an empty array. *)
Definition np_max (a : list Q) : result Q :=
  match a with
  | [] => Raise ValueError
  | s :: rest => Ok (foldl Qmax s rest)
  end.

Definition np_min (a : list Q) : result Q :=
  match a with
  | [] => Raise ValueError
  | s :: rest => Ok (foldl Qmin s rest)
  end.

(** The test of lines 73-76 for one row. *)
Definition svm_keep (normalized_similarities : list Q)
    (relevancy_threshold : option Q) (row : Z) : result bool :=
  match relevancy_threshold with
  | None => Ok true
  | Some t =>
      s ← index normalized_similarities row;
      Ok (Qle_bool t s)
  end.

(** The outcome of that test for a row within the scores. *)
Definition passes (normalized_similarities : list Q)
    (relevancy_threshold : option Q) (row : Z) : bool :=
  match relevancy_threshold with
  | None => true
  | Some t =>
      match normalized_similarities !! Z.to_nat row with
      | Some s => Qle_bool t s
      | None => false
      end
  end.

(** [d] is the passage the store holds at [position]. *)
Definition stored_at (db : DB) (position : Z) (d : Document) : Prop :=
  documents db !! Z.to_nat position = Some (page_content d)
  ∧ metadatas db !! Z.to_nat position = Some (metadata d).

(** [for row in rows: if ...: top_k_results.append(Document(...))] *)
Fixpoint svm_collect (indx : DB) (normalized_similarities : list Q)
    (relevancy_threshold : option Q) (rows : list Z)
    : result (list Document) :=
  match rows with
  | [] => Ok []
  | row :: rest =>
      keep ← svm_keep normalized_similarities relevancy_threshold row;
      if keep : bool then
        content ← index (documents indx) (row - 1);
        meta ← index (metadatas indx) (row - 1);
        others ← svm_collect indx normalized_similarities
                   relevancy_threshold rest;
        Ok (mkDocument content meta :: others)
      else svm_collect indx normalized_similarities relevancy_threshold rest
  end.

(** [(similarities - np.min(similarities)) / denominator] *)
Definition normalize (similarities : list Q) : result (list Q) :=
  hi ← np_max similarities;
  lo ← np_min similarities;
  let denominator := (hi - lo + (1 # 1000000))%Q in
  Ok ((λ s, (s - lo) / denominator)%Q <$> similarities).

(** The rows the final loop walks: [sorted_ix[1 : k + 1]] after the swap. *)
Definition svm_rows (similarities : list Q) (k : Z) : result (list Z) :=
  sorted_ix ← put_query_first (argsort (Qopp <$> similarities));
  Ok (slice sorted_ix 1 (k + 1)).

(** The [embeddings] argument of the source is [embed_query]. *)
Definition _get_relevant_doc_svm (db : DB) (query : string) (k : Z)
    (relevancy_threshold : option Q) : result (list Document) :=
  let indx := db in
  let query_embeds := embed_query query in
  x ← np_concatenate query_embeds (embeddings indx);
  let y := 1 :: replicate (length x - 1) 0 in
  similarities ← linear_svc x y;
  rows ← svm_rows similarities k;
  normalized_similarities ← normalize similarities;
  svm_collect indx normalized_similarities relevancy_threshold rows.

(** ** _get_relevant_doc_mmr *)

Definition _get_relevant_doc_mmr (db : DB) (query : string) (k : Z)
    (relevancy_threshold : option Q) : result (list Document) :=
  mmr_search db query k relevancy_threshold.

(** ** _get_relevant_doc_tfidf *)

(** [langchain.retrievers.TFIDFRetriever], as far as search.py uses it. The
    class is langchain's, not this repository's: the fields and the two
    methods below follow its definition. [tfidf_k] is its field [k], which
    langchain declares with the default 4. *)
Record TFIDFRetriever := mkTFIDFRetriever {
  tfidf_docs : list Document;
  tfidf_k : Z
}.

(** [TFIDFRetriever.from_documents(docs_list, search_kwargs={"k": k})].
    langchain unzips the documents into texts and metadatas, which raises
    [ValueError] when there is none, and hands the remaining keyword
    arguments to the constructor. [search_kwargs] is not a field of the
    class, so the constructor drops it and [k] keeps its default. *)
Definition from_documents (docs_list : list Document) (search_kwargs_k : Z)
    : result TFIDFRetriever :=
  match docs_list with
  | [] => Raise ValueError
  | _ => Ok {| tfidf_docs := docs_list; tfidf_k := 4 |}
  end.

(** [for i in ixs: out.append(l[i])] *)
Fixpoint pick {A} (l : list A) (ixs : list Z) : result (list A) :=
  match ixs with
  | [] => Ok []
  | i :: rest =>
      a ← index l i;
      others ← pick l rest;
      Ok (a :: others)
  end.

(** [retriever.get_relevant_documents(query)]:
    [[self.docs[i] for i in results.argsort()[-self.k:][::-1]]]. *)
Definition get_relevant_documents (retriever : TFIDFRetriever)
    (query : string) : result (list Document) :=
  results ← tfidf_scores (page_content <$> tfidf_docs retriever) query;
  let order := argsort results in
  pick (tfidf_docs retriever)
    (reverse (slice order (- tfidf_k retriever) (Z.of_nat (length order)))).

(** Lines 21-24: one [Document] per stored text, with the metadata at the
    same position. *)
Fixpoint to_documents (all_docs : DB) (positions : list nat)
    : result (list Document) :=
  match positions with
  | [] => Ok []
  | i :: rest =>
      content ← index (documents all_docs) (Z.of_nat i);
      meta ← index (metadatas all_docs) (Z.of_nat i);
      others ← to_documents all_docs rest;
      Ok (mkDocument content meta :: others)
  end.

Definition _get_relevant_doc_tfidf (db : DB) (query : string) (k : Z)
    : result (list Document) :=
  let all_docs := db in
  docs_list ← to_documents all_docs
                (range (Z.of_nat (length (documents all_docs))));
  retriever ← from_documents docs_list k;
  result ← get_relevant_documents retriever query;
  Ok (slice result 0 k).

(** ** get_docs *)

(** What [get_docs] hands back: a list, or [None]. A retriever's exception
    passes through with the sinks as they were. *)
Definition get_docs (db : DB) (query : string) (topK : Z)
    (threshold : option Q) (language : string) (search_type : string)
    (verbose : bool) (w : Sinks)
    : result (option (list Document)) * Sinks :=
  let merged (found : result (list (list Document))) :=
    match found with
    | Ok docs_list =>
        let '(docs, w') := _merge_docs docs_list topK language verbose w in
        (Ok (Some docs), w')
    | Raise e => (Raise e, w)
    end in
  if decide (search_type = "merge") then
    merged (docs_mmr ← _get_relevant_doc_mmr db query topK threshold;
            docs_svm ← _get_relevant_doc_svm db query topK threshold;
            docs_tfidf ← _get_relevant_doc_tfidf db query topK;
            Ok [docs_mmr; docs_svm; docs_tfidf])
  else if decide (search_type = "mmr") then
    merged (docs_mmr ← _get_relevant_doc_mmr db query topK threshold;
            Ok [docs_mmr])
  else if decide (search_type = "svm") then
    merged (docs_svm ← _get_relevant_doc_svm db query topK threshold;
            Ok [docs_svm])
  else if decide (search_type = "tfidf") then
    merged (docs_tfidf ← _get_relevant_doc_tfidf db query topK;
            Ok [docs_tfidf])
  else
    let info := "cannot find search type " +:+ search_type
                +:+ ", end process" +:+ newline in
    (Ok None, logs_append info (print [info] w)).

End Retrievers.

(** ** A small set of services to run the functions on *)

Module Sample.

Definition dot (a b : list Q) : Q := foldr Qplus 0%Q (zip_with Qmult a b).

(** Insertion into a list of (position, key) kept in increasing key order,
    before the entries with an equal key. *)
Fixpoint insert_key (x : Z * Q) (l : list (Z * Q)) : list (Z * Q) :=
  match l with
  | [] => [x]
  | y :: rest =>
      if Qle_bool x.2 y.2 then x :: y :: rest else y :: insert_key x rest
  end.

Definition sort_keys (l : list (Z * Q)) : list (Z * Q) :=
  foldr insert_key [] l.

(** A stable argsort. *)
Definition argsort (keys : list Q) : list Z :=
  fst <$> sort_keys (zip (seqZ 0 (Z.of_nat (length keys))) keys).

(** Two coordinates: the length of the text, and 1. *)
Definition embed_query (text : string) : list Q :=
  [inject_Z (Z.of_nat (String.length text)); 1%Q].

(** A linear decision function through the first row; like the solver it
    stands for, it refuses a training set with a single class. *)
Definition linear_svc (x : list (list Q)) (y : list Z) : result (list Q) :=
  if bool_decide (0 ∈ y ∧ 1 ∈ y) then
    Ok ((λ row, dot (default [] (head x)) row) <$> x)
  else Raise ValueError.

(** How many words of the query the text holds. *)
Definition shared_words (query text : string) : Q :=
  inject_Z (Z.of_nat
    (length (filter (λ word, word ∈ split text) (split query)))).

Definition tfidf_scores (texts : list string) (query : string)
    : result (list Q) :=
  Ok (shared_words query <$> texts).

(** The first [k] passages of the store, in order. *)
Definition mmr_search (db : DB) (query : string) (k : Z)
    (threshold : option Q) : result (list Document) :=
  Ok (take (Z.to_nat k) (zip_with mkDocument (documents db) (metadatas db))).

(** One token per character. *)
Definition jieba_cut (text : string) : list string :=
  (λ c, String c EmptyString) <$> list_ascii_of_string text.

#[export] Instance services : Services :=
  Build_Services embed_query linear_svc argsort tfidf_scores mmr_search
    jieba_cut.

(** [n] copies of the word [w], blank-separated. *)
Fixpoint words (n : nat) (w : string) : string :=
  match n with
  | O => EmptyString
  | S n' => w +:+ " " +:+ words n' w
  end.

Definition passage (text : string) (source : string) : Document :=
  mkDocument text {[ "source" := MStr source ]}.

(** A store of five one-line passages. *)
Definition db5 : DB := {|
  documents := ["red fox"; "blue whale"; "green frog"; "grey wolf"; "red deer"];
  metadatas := (λ n, {[ "page" := MInt n ]}) <$> [1; 2; 3; 4; 5];
  embeddings := [[3%Q; 1%Q]; [5%Q; 1%Q]; [2%Q; 1%Q]; [7%Q; 1%Q]; [4%Q; 1%Q]]
|}.

Definition empty_db : DB :=
  {| documents := []; metadatas := []; embeddings := [] |}.

Definition no_sinks : Sinks := {| logs := []; stdout := [] |}.

(** Three passages of 1000 words each. *)
Definition p1 : Document := passage (words 1000 "a") "one".
Definition p2 : Document := passage (words 1000 "b") "two".
Definition p3 : Document := passage (words 1000 "c") "three".

(** Three passages of 1200 words each. *)
Definition q1 : Document := passage (words 1200 "a") "one".
Definition q2 : Document := passage (words 1200 "b") "two".
Definition q3 : Document := passage (words 1200 "c") "three".

(** Two ranked lists: [heavy] and [middle] fill 2900 words in the first
    round; in the second, [late] (200 words) does not fit, [light] (50
    words) would. *)
Definition heavy : Document := passage (words 2000 "a") "a".
Definition middle : Document := passage (words 900 "c") "c".
Definition late : Document := passage (words 200 "b") "b".
Definition light : Document := passage (words 50 "e") "e".
Definition two_lists : list (list Document) :=
  [[heavy; late]; [middle; light]].

(** A passage over the budget of either language on its own. *)
Definition oversize : Document := passage (words 3001 "x") "x".

(** Two short ranked lists that share a passage. *)
Definition fox : Document := passage "red fox" "a".
Definition whale : Document := passage "blue whale" "b".
Definition frog : Document := passage "green frog" "c".
Definition wolf : Document := passage "grey wolf" "d".

(** A store that lost the metadata of its second text. *)
Definition short_db : DB := {|
  documents := ["red fox"; "blue whale"];
  metadatas := [{[ "page" := MInt 1 ]}];
  embeddings := [[3%Q; 1%Q]; [5%Q; 1%Q]]
|}.

End Sample.

(** * Proofs *)

Section MergeProofs.
Context `{Services}.

(** *** The loop body, with the two language branches read as one *)

Lemma merge_body_unfold language verbose w i docs res cur :
  merge_body language verbose w i docs res cur =
  match docs !! i with
  | None => Continue res cur
  | Some d =>
      if decide (d ∈ res) then Continue res cur
      else if (budget language <? cur + words_len language d)%nat
      then Return res (log_words verbose cur w)
      else Continue (res ++ [d]) (cur + words_len language d)
  end.
Proof.
  unfold merge_body, budget, words_len.
  destruct (docs !! i) as [d|]; [|done].
  destruct (decide (d ∈ res)); [done|].
  by destruct (decide (language = "ch")).
Qed.

Lemma total_words_snoc language res d :
  total_words language (res ++ [d])
  = (total_words language res + words_len language d)%nat.
Proof. unfold total_words. rewrite sum_list_with_app. simpl. lia. Qed.

(** *** The loop invariant *)

(** [cur_count] is the estimated size of [res], within budget, and [res]
    holds no value twice. *)
Definition merge_inv (language : string) (res : list Document) (cur : nat)
    : Prop :=
  cur = total_words language res ∧ (cur ≤ budget language)%nat ∧ NoDup res.

(** A [flow] that respects the invariant; an early return logged the count
    it stopped at. *)
Definition flow_inv (language : string) (verbose : bool) (w : Sinks)
    (f : flow) : Prop :=
  match f with
  | Continue res cur => merge_inv language res cur
  | Return res w' =>
      ∃ cur, merge_inv language res cur ∧ w' = log_words verbose cur w
  end.

Lemma merge_body_inv language verbose w i docs res cur :
  merge_inv language res cur →
  flow_inv language verbose w (merge_body language verbose w i docs res cur).
Proof.
  intros (Hcur & Hle & Hnd). rewrite merge_body_unfold.
  destruct (docs !! i) as [d|]; [|by repeat split].
  destruct (decide (d ∈ res)) as [Hin|Hin]; [by repeat split|].
  destruct (Nat.ltb_spec (budget language) (cur + words_len language d)).
  - exists cur. by repeat split.
  - repeat split.
    + rewrite total_words_snoc. lia.
    + lia.
    + apply NoDup_app. repeat split; [done| |apply NoDup_singleton].
      intros x Hx Hxd. apply list_elem_of_singleton in Hxd. by subst.
Qed.

Lemma merge_inner_inv language verbose w i docs_list res cur :
  merge_inv language res cur →
  flow_inv language verbose w
    (merge_inner language verbose w i docs_list res cur).
Proof.
  revert res cur.
  induction docs_list as [|docs rest IH]; intros res cur Hinv; [done|].
  simpl.
  pose proof (merge_body_inv language verbose w i docs res cur Hinv) as Hb.
  destruct (merge_body language verbose w i docs res cur); [by apply IH|done].
Qed.

Lemma merge_outer_inv language verbose w rounds docs_list res cur :
  merge_inv language res cur →
  flow_inv language verbose w
    (merge_outer language verbose w rounds docs_list res cur).
Proof.
  revert res cur.
  induction rounds as [|i later IH]; intros res cur Hinv; [done|].
  simpl.
  pose proof (merge_inner_inv language verbose w i docs_list res cur Hinv)
    as Hb.
  destruct (merge_inner language verbose w i docs_list res cur);
    [by apply IH|done].
Qed.

Lemma merge_inv_init language : merge_inv language [] 0.
Proof. repeat split; [lia|constructor]. Qed.

(** What every call returns: a list satisfying the invariant, and the sinks
    after one [log_words] at its size. *)
Lemma merge_docs_spec docs_list topK language verbose w :
  ∃ cur,
    merge_inv language (_merge_docs docs_list topK language verbose w).1 cur
    ∧ (_merge_docs docs_list topK language verbose w).2
      = log_words verbose cur w.
Proof.
  unfold _merge_docs.
  pose proof (merge_outer_inv language verbose w (range topK) docs_list
                [] 0%nat (merge_inv_init language)) as Hf.
  destruct (merge_outer language verbose w (range topK) docs_list [] 0%nat)
    as [res cur|res w'].
  - by exists cur.
  - destruct Hf as (cur & Hinv & ->). by exists cur.
Qed.

(** *** Splitting the loops *)

Lemma merge_inner_app language verbose w i before after res cur :
  merge_inner language verbose w i (before ++ after) res cur =
  match merge_inner language verbose w i before res cur with
  | Continue res' cur' => merge_inner language verbose w i after res' cur'
  | Return res' w' => Return res' w'
  end.
Proof.
  revert res cur. induction before as [|docs rest IH]; intros res cur; [done|].
  simpl. destruct (merge_body language verbose w i docs res cur); [apply IH|done].
Qed.

Lemma merge_outer_app language verbose w earlier later docs_list res cur :
  merge_outer language verbose w (earlier ++ later) docs_list res cur =
  match merge_outer language verbose w earlier docs_list res cur with
  | Continue res' cur' =>
      merge_outer language verbose w later docs_list res' cur'
  | Return res' w' => Return res' w'
  end.
Proof.
  revert res cur. induction earlier as [|i rest IH]; intros res cur; [done|].
  simpl.
  destruct (merge_inner language verbose w i docs_list res cur);
    [apply IH|done].
Qed.

Lemma range_split (i : nat) (topK : Z) :
  Z.of_nat i < topK →
  range topK
  = (range (Z.of_nat i) ++ i :: seq (S i) (Z.to_nat topK - S i))%list.
Proof.
  intros Hi. unfold range. rewrite Nat2Z.id.
  replace (Z.to_nat topK) with (i + S (Z.to_nat topK - S i))%nat at 1 by lia.
  by rewrite seq_app.
Qed.

(** The early exit: when the candidate of list [docs] at round [i] does not
    fit, the call returns what it had gathered up to there. *)
Lemma merge_docs_stop docs_list topK language verbose w
    (i : nat) before docs after res0 cur0 res cur d :
  Z.of_nat i < topK →
  docs_list = (before ++ docs :: after)%list →
  merge_outer language verbose w (range (Z.of_nat i)) docs_list [] 0%nat
    = Continue res0 cur0 →
  merge_inner language verbose w i before res0 cur0 = Continue res cur →
  docs !! i = Some d →
  d ∉ res →
  (budget language < cur + words_len language d)%nat →
  _merge_docs docs_list topK language verbose w
    = (res, log_words verbose cur w).
Proof.
  intros Hi -> Hrounds Hbefore Hd Hnew Hover.
  unfold _merge_docs.
  rewrite (range_split i topK Hi), merge_outer_app, Hrounds. simpl.
  rewrite merge_inner_app, Hbefore. simpl.
  rewrite merge_body_unfold, Hd.
  destruct (decide (d ∈ res)); [done|].
  destruct (Nat.ltb_spec (budget language) (cur + words_len language d));
    [done|lia].
Qed.

(** *** One ranked list: at most one passage per round *)

Definition flow_res (f : flow) : list Document :=
  match f with
  | Continue res _ => res
  | Return res _ => res
  end.

Lemma merge_body_length language verbose w i docs res cur :
  (length (flow_res (merge_body language verbose w i docs res cur))
   ≤ S (length res))%nat.
Proof.
  rewrite merge_body_unfold.
  destruct (docs !! i) as [d|]; simpl; [|lia].
  destruct (decide (d ∈ res)); simpl; [lia|].
  destruct (_ <? _)%nat; simpl; [lia|].
  rewrite length_app. simpl. lia.
Qed.

Lemma merge_outer_single_length language verbose w rounds docs res cur :
  (length (flow_res
     (merge_outer language verbose w rounds [docs] res cur))
   ≤ length res + length rounds)%nat.
Proof.
  revert res cur.
  induction rounds as [|i later IH]; intros res cur; simpl; [lia|].
  pose proof (merge_body_length language verbose w i docs res cur) as Hb.
  destruct (merge_body language verbose w i docs res cur) as [r c|r w'];
    simpl in *; [|lia].
  specialize (IH r c). lia.
Qed.

Lemma merge_inner_length language verbose w i docs_list res cur :
  (length (flow_res (merge_inner language verbose w i docs_list res cur))
   ≤ length res + length docs_list)%nat.
Proof.
  revert res cur.
  induction docs_list as [|docs rest IH]; intros res cur; simpl; [lia|].
  pose proof (merge_body_length language verbose w i docs res cur) as Hb.
  destruct (merge_body language verbose w i docs res cur) as [r c|r w'];
    simpl in *; [|lia].
  specialize (IH r c). lia.
Qed.

Lemma merge_outer_length language verbose w rounds docs_list res cur :
  (length (flow_res
     (merge_outer language verbose w rounds docs_list res cur))
   ≤ length res + length rounds * length docs_list)%nat.
Proof.
  revert res cur.
  induction rounds as [|i later IH]; intros res cur; simpl; [lia|].
  pose proof (merge_inner_length language verbose w i docs_list res cur)
    as Hb.
  destruct (merge_inner language verbose w i docs_list res cur)
    as [r c|r w']; simpl in *; [|lia].
  specialize (IH r c). lia.
Qed.

Lemma merge_docs_res docs_list topK language verbose w :
  (_merge_docs docs_list topK language verbose w).1
  = flow_res (merge_outer language verbose w (range topK) docs_list [] 0%nat).
Proof. unfold _merge_docs. by destruct (merge_outer _ _ _ _ _ _ _). Qed.

(** *** The sinks are written, never read *)

(** Two runs that differ only in the sinks they were handed take the same
    path. *)
Definition flow_same (verbose : bool) (w1 w2 : Sinks) (f1 f2 : flow)
    : Prop :=
  match f1, f2 with
  | Continue r1 c1, Continue r2 c2 => r1 = r2 ∧ c1 = c2
  | Return r1 w1', Return r2 w2' =>
      r1 = r2 ∧ ∃ cur, w1' = log_words verbose cur w1
                       ∧ w2' = log_words verbose cur w2
  | _, _ => False
  end.

Lemma merge_body_same language verbose w1 w2 i docs res cur :
  flow_same verbose w1 w2
    (merge_body language verbose w1 i docs res cur)
    (merge_body language verbose w2 i docs res cur).
Proof.
  rewrite !merge_body_unfold.
  destruct (docs !! i) as [d|]; simpl; [|done].
  destruct (decide (d ∈ res)); simpl; [done|].
  destruct (_ <? _)%nat; simpl; [|done].
  split; [done|]. by exists cur.
Qed.

Lemma merge_inner_same language verbose w1 w2 i docs_list res cur :
  flow_same verbose w1 w2
    (merge_inner language verbose w1 i docs_list res cur)
    (merge_inner language verbose w2 i docs_list res cur).
Proof.
  revert res cur.
  induction docs_list as [|docs rest IH]; intros res cur; simpl; [done|].
  pose proof (merge_body_same language verbose w1 w2 i docs res cur) as Hb.
  destruct (merge_body language verbose w1 i docs res cur),
           (merge_body language verbose w2 i docs res cur);
    simpl in Hb; try done.
  destruct Hb as [-> ->]. apply IH.
Qed.

Lemma merge_outer_same language verbose w1 w2 rounds docs_list res cur :
  flow_same verbose w1 w2
    (merge_outer language verbose w1 rounds docs_list res cur)
    (merge_outer language verbose w2 rounds docs_list res cur).
Proof.
  revert res cur.
  induction rounds as [|i later IH]; intros res cur; simpl; [done|].
  pose proof (merge_inner_same language verbose w1 w2 i docs_list res cur)
    as Hb.
  destruct (merge_inner language verbose w1 i docs_list res cur),
           (merge_inner language verbose w2 i docs_list res cur);
    simpl in Hb; try done.
  destruct Hb as [-> ->]. apply IH.
Qed.

Lemma merge_docs_same docs_list topK language verbose w1 w2 :
  (_merge_docs docs_list topK language verbose w1).1
  = (_merge_docs docs_list topK language verbose w2).1.
Proof.
  rewrite !merge_docs_res.
  pose proof (merge_outer_same language verbose w1 w2 (range topK)
                docs_list [] 0%nat) as Hs.
  destruct (merge_outer language verbose w1 (range topK) docs_list [] 0%nat),
           (merge_outer language verbose w2 (range topK) docs_list [] 0%nat);
    simpl in *; try done; by destruct Hs.
Qed.

Lemma log_words_logs verbose cur w :
  logs (log_words verbose cur w)
  = (logs w ++ ["words length: " +:+ str cur])%list.
Proof. unfold log_words. by destruct verbose. Qed.

End MergeProofs.

(** ** Python indexing and slicing *)

Section PyFacts.
Context {A : Type}.
Implicit Types l : list A.

Lemma index_in_range l (i : Z) :
  0 ≤ i < Z.of_nat (length l) →
  ∃ a, index l i = Ok a ∧ l !! Z.to_nat i = Some a.
Proof.
  intros Hi. unfold index.
  destruct (Z.ltb_spec i 0); [lia|].
  destruct (Z.ltb_spec i 0); [lia|].
  destruct (Z.leb_spec (Z.of_nat (length l)) i); [lia|]. simpl.
  destruct (lookup_lt_is_Some_2 l (Z.to_nat i)) as [a Ha]; [lia|].
  exists a. by rewrite Ha.
Qed.

(** [l[1:stop]] is cut from the tail of a non-empty list. *)
Lemma slice_from_1 (a : A) l (stop : Z) :
  ∃ n, slice (a :: l) 1 stop = take n l
       ∧ (0 ≤ stop → Z.of_nat n ≤ stop - 1 ∨ n = 0%nat).
Proof.
  unfold slice.
  assert (clamp (Z.of_nat (length (a :: l))) 1 = 1%nat) as ->.
  { unfold clamp. simpl length. destruct (Z.ltb_spec 1 0); lia. }
  simpl drop.
  exists (clamp (Z.of_nat (length (a :: l))) stop - 1)%nat. split; [done|].
  intros Hstop. unfold clamp. destruct (Z.ltb_spec stop 0); lia.
Qed.

(** [l[0:stop]] for a non-negative [stop] is the first [stop] items. *)
Lemma slice_prefix l (stop : Z) :
  0 ≤ stop → slice l 0 stop = take (Z.to_nat stop) l.
Proof.
  intros Hstop. unfold slice.
  assert (clamp (Z.of_nat (length l)) 0 = 0%nat) as ->.
  { unfold clamp. destruct (Z.ltb_spec 0 0); lia. }
  assert (clamp (Z.of_nat (length l)) stop
          = Nat.min (length l) (Z.to_nat stop)) as ->.
  { unfold clamp. destruct (Z.ltb_spec stop 0); lia. }
  rewrite Nat.sub_0_r, drop_0.
  destruct (decide (Z.to_nat stop ≤ length l)%nat).
  - by rewrite Nat.min_r by lia.
  - rewrite Nat.min_l by lia.
    rewrite (take_ge l (length l)) by lia.
    by rewrite (take_ge l (Z.to_nat stop)) by lia.
Qed.

End PyFacts.

(** ** The swap that puts the query row first *)

Section SwapProofs.

Lemma insert_swap_perm (l : list Z) (j : nat) (a b : Z) :
  l !! j = Some a → a :: <[j := b]> l ≡ₚ b :: l.
Proof.
  revert j. induction l as [|x l IH]; intros [|j] Hj; simplify_eq/=.
  - apply perm_swap.
  - rewrite perm_swap. rewrite (IH j Hj). apply perm_swap.
Qed.

(** An array that already starts with row 0 is left as it is. *)
Lemma put_query_first_fixed (sorted_ix : list Z) :
  sorted_ix !! 0%nat = Some 0 → put_query_first sorted_ix = Ok sorted_ix.
Proof.
  destruct sorted_ix as [|a rest]; intros Hhead; simplify_eq/=.
  by unfold put_query_first, where_first.
Qed.

(** On an array that holds row 0 the swap succeeds, leaves row 0 in the
    first slot and only reorders. *)
Lemma put_query_first_ok (sorted_ix : list Z) :
  0 ∈ sorted_ix →
  ∃ swapped, put_query_first sorted_ix = Ok swapped
             ∧ swapped !! 0%nat = Some 0
             ∧ swapped ≡ₚ sorted_ix.
Proof.
  intros Hin.
  destruct (list_find_elem_of (λ x, x = 0) sorted_ix 0 Hin eq_refl)
    as [[i y] Hfind].
  pose proof Hfind as Hspec.
  apply list_find_Some in Hspec as (Hi & -> & _).
  unfold put_query_first, where_first. rewrite Hfind. simpl.
  destruct (decide (i ≠ 0%nat)) as [Hne|Heq].
  - destruct sorted_ix as [|b rest]; [done|].
    destruct i as [|j]; [done|]. simpl in *. rewrite Hi. simpl.
    eexists. split; [done|]. split; [done|].
    by apply insert_swap_perm.
  - assert (i = 0%nat) as -> by (destruct i; [done|by destruct Heq]).
    exists sorted_ix. by rewrite Hi.
Qed.

End SwapProofs.

(** ** The margin retriever *)

Section SvmProofs.
Context `{Services}.

(** What numpy promises of [argsort]: every position, once. *)
Definition argsort_permutes : Prop :=
  ∀ keys : list Q, argsort keys ≡ₚ seqZ 0 (Z.of_nat (length keys)).

Lemma svm_keep_in_range normalized thr (row : Z) :
  0 ≤ row < Z.of_nat (length normalized) →
  svm_keep normalized thr row = Ok (passes normalized thr row).
Proof.
  intros Hrow. unfold svm_keep, passes. destruct thr as [t|]; [|done].
  destruct (index_in_range normalized row Hrow) as (s & -> & ->). done.
Qed.

(** The rows walked by the final loop: distinct corpus rows, never row 0,
    and no more than [k] of them. *)
Lemma svm_rows_ok (similarities : list Q) (k : Z) (N : nat) :
  argsort_permutes →
  length similarities = S N →
  ∃ rows, svm_rows similarities k = Ok rows
          ∧ NoDup rows
          ∧ (∀ row, row ∈ rows → 1 ≤ row ≤ Z.of_nat N)
          ∧ (0 ≤ k → Z.of_nat (length rows) ≤ k).
Proof.
  intros Hperm Hlen. unfold svm_rows.
  pose proof (Hperm (Qopp <$> similarities)) as Hsorted.
  rewrite length_fmap, Hlen in Hsorted.
  assert (0 ∈ argsort (Qopp <$> similarities)) as Hin.
  { rewrite Hsorted. apply elem_of_seqZ. lia. }
  destruct (put_query_first_ok _ Hin) as (swapped & -> & Hhead & Hswap).
  simpl. destruct swapped as [|z rest]; simplify_eq/=.
  rewrite Hsorted in Hswap.
  rewrite seqZ_cons in Hswap by lia.
  apply Permutation_cons_inv in Hswap.
  replace (Z.pred (Z.of_nat (S N))) with (Z.of_nat N) in Hswap by lia.
  destruct (slice_from_1 0 rest (k + 1)) as (n & -> & Hn).
  eexists. split; [done|].
  assert (NoDup rest) as Hnd by (rewrite Hswap; apply NoDup_seqZ).
  split; [|split].
  - eapply sublist_NoDup; [exact Hnd|apply sublist_take].
  - intros row Hrow. apply subseteq_take in Hrow.
    rewrite Hswap in Hrow. apply elem_of_seqZ in Hrow. lia.
  - intros Hk. rewrite length_take. lia.
Qed.

Lemma svm_collect_ok (db : DB) normalized thr (rows : list Z) (N : nat) :
  length (documents db) = N →
  length (metadatas db) = N →
  length normalized = S N →
  (∀ row, row ∈ rows → 1 ≤ row ≤ Z.of_nat N) →
  ∃ docs,
    svm_collect db normalized thr rows = Ok docs
    ∧ Forall2 (λ row d, stored_at db (row - 1) d)
        (filter (λ row, Is_true (passes normalized thr row)) rows) docs.
Proof.
  intros Hdocs Hmetas Hnorm.
  induction rows as [|row rest IH]; intros Hrows.
  { exists []. split; [done|constructor]. }
  assert (1 ≤ row ≤ Z.of_nat N) as Hrow by (apply Hrows; left).
  destruct IH as (others & Hothers & Hrel).
  { intros r Hr. apply Hrows. by right. }
  simpl. rewrite svm_keep_in_range by lia. simpl.
  destruct (passes normalized thr row) eqn:Hpass.
  - destruct (index_in_range (documents db) (row - 1)) as (c & -> & Hc);
      [lia|].
    destruct (index_in_range (metadatas db) (row - 1)) as (m & -> & Hm);
      [lia|].
    simpl. rewrite Hothers. simpl. eexists. split; [done|].
    rewrite filter_cons_True by (by apply Is_true_true_2).
    by constructor.
  - exists others. split; [done|].
    by rewrite filter_cons_False by (by apply Is_true_false_2).
Qed.

Lemma normalize_ok (similarities : list Q) (N : nat) :
  length similarities = S N →
  ∃ normalized, normalize similarities = Ok normalized
                ∧ length normalized = S N.
Proof.
  intros Hlen. destruct similarities as [|s rest]; [done|].
  unfold normalize. simpl. eexists. split; [done|].
  simpl. rewrite length_fmap. by simpl in Hlen.
Qed.

Lemma np_concatenate_ok (query_embeds : list Q) (corpus : list (list Q)) :
  corpus ≠ [] →
  Forall (λ row, length row = length query_embeds) corpus →
  np_concatenate query_embeds corpus = Ok (query_embeds :: corpus).
Proof.
  intros Hne Hrows. unfold np_concatenate.
  destruct corpus as [|row rest]; [done|].
  assert (forallb (λ row, length row =? length query_embeds)%nat
            (row :: rest) = true) as ->; [|done].
  apply forallb_forall. intros r Hr.
  apply Nat.eqb_eq. rewrite Forall_forall in Hrows.
  apply Hrows. by apply list_elem_of_In.
Qed.

End SvmProofs.

(** ** The lexical retriever *)

Section TfidfProofs.
Context `{Services}.

Lemma to_documents_ok (all_docs : DB) (positions : list nat) :
  (∀ i, i ∈ positions → (i < length (documents all_docs))%nat
                         ∧ (i < length (metadatas all_docs))%nat) →
  ∃ docs_list,
    to_documents all_docs positions = Ok docs_list
    ∧ length docs_list = length positions.
Proof.
  induction positions as [|i rest IH]; intros Hin.
  { by exists []. }
  destruct (Hin i) as [Hdoc Hmeta]; [left|].
  destruct IH as (others & Hothers & Hlen).
  { intros j Hj. apply Hin. by right. }
  simpl.
  destruct (index_in_range (documents all_docs) (Z.of_nat i))
    as (c & -> & _); [lia|].
  destruct (index_in_range (metadatas all_docs) (Z.of_nat i))
    as (m & -> & _); [lia|].
  simpl. rewrite Hothers. simpl. eexists. split; [done|].
  simpl. by rewrite Hlen.
Qed.

Lemma pick_ok {A} (l : list A) (ixs : list Z) :
  (∀ i, i ∈ ixs → 0 ≤ i < Z.of_nat (length l)) →
  ∃ out, pick l ixs = Ok out ∧ length out = length ixs.
Proof.
  induction ixs as [|i rest IH]; intros Hin.
  { by exists []. }
  destruct IH as (others & Hothers & Hlen).
  { intros j Hj. apply Hin. by right. }
  simpl.
  destruct (index_in_range l i) as (a & -> & _); [apply Hin; left|].
  simpl. rewrite Hothers. simpl. eexists. split; [done|].
  simpl. by rewrite Hlen.
Qed.

(** [order[-4:]] keeps the last four positions, or all of them. *)
Lemma slice_last_four (order : list Z) :
  slice order (- 4) (Z.of_nat (length order))
  = drop (length order - 4) order.
Proof.
  unfold slice.
  assert (clamp (Z.of_nat (length order)) (- 4) = (length order - 4)%nat)
    as ->.
  { unfold clamp. destruct (Z.ltb_spec (- 4) 0); lia. }
  assert (clamp (Z.of_nat (length order)) (Z.of_nat (length order))
          = length order) as ->.
  { unfold clamp. destruct (Z.ltb_spec (Z.of_nat (length order)) 0); lia. }
  apply take_ge. rewrite length_drop. lia.
Qed.

(** X1. On a store of [N >= 1] aligned passages, with [k >= 0], the lexical
    retriever returns [min(k, 4, N)] passages: the [k] it is called with
    only shortens what the retriever, left at its default of four, hands
    back. *)
Theorem tfidf_length (db : DB) query (k : Z) (N : nat) :
  argsort_permutes →
  (1 ≤ N)%nat →
  length (documents db) = N →
  length (metadatas db) = N →
  (∀ texts, length texts = N →
            ∃ scores, tfidf_scores texts query = Ok scores
                      ∧ length scores = N) →
  0 ≤ k →
  ∃ docs, _get_relevant_doc_tfidf db query k = Ok docs
          ∧ Z.of_nat (length docs) = Z.min k (Z.min 4 (Z.of_nat N)).
Proof.
  intros Hperm HN Hdocs Hmetas Hscore Hk.
  unfold _get_relevant_doc_tfidf.
  destruct (to_documents_ok db (range (Z.of_nat (length (documents db)))))
    as (docs_list & -> & Hlen).
  { intros i Hi. unfold range in Hi. apply elem_of_seq in Hi. lia. }
  unfold range in Hlen. rewrite length_seq, Nat2Z.id, Hdocs in Hlen.
  simpl.
  assert (from_documents docs_list k
          = Ok {| tfidf_docs := docs_list; tfidf_k := 4 |}) as ->.
  { destruct docs_list; [simpl in Hlen; lia|done]. }
  simpl. unfold get_relevant_documents. simpl.
  destruct (Hscore (page_content <$> docs_list)) as (scores & -> & Hscores).
  { by rewrite length_fmap. }
  simpl. rewrite slice_last_four.
  pose proof (Hperm scores) as Horder. rewrite Hscores in Horder.
  assert (length (argsort scores) = N) as Hordlen.
  { rewrite Horder, length_seqZ. lia. }
  destruct (pick_ok docs_list
              (reverse (drop (length (argsort scores) - 4) (argsort scores))))
    as (result & -> & Hreslen).
  { intros i Hi. rewrite elem_of_reverse in Hi.
    apply (subseteq_drop _ _ i) in Hi.
    rewrite Horder in Hi. apply elem_of_seqZ in Hi. lia. }
  simpl. eexists. split; [done|].
  rewrite slice_prefix by done. rewrite length_take, Hreslen.
  rewrite length_reverse, length_drop, Hordlen. lia.
Qed.

End TfidfProofs.

(** ** The sample argsort is a permutation of the positions *)

Section SampleProofs.

Lemma insert_key_perm (x : Z * Q) (l : list (Z * Q)) :
  Sample.insert_key x l ≡ₚ x :: l.
Proof.
  induction l as [|y rest IH]; simpl; [done|].
  destruct (Qle_bool x.2 y.2); [done|].
  rewrite IH. apply perm_swap.
Qed.

Lemma sort_keys_perm (l : list (Z * Q)) : Sample.sort_keys l ≡ₚ l.
Proof.
  induction l as [|x rest IH]; simpl; [done|].
  rewrite insert_key_perm. by rewrite IH.
Qed.

Lemma sample_argsort_permutes : @argsort_permutes Sample.services.
Proof.
  intros keys. simpl. unfold Sample.argsort.
  rewrite sort_keys_perm.
  rewrite fst_zip; [done|]. rewrite length_seqZ. lia.
Qed.

End SampleProofs.

(** * The claims *)

Section MergeClaims.
Context `{Services}.

(** C1. The list [_merge_docs] returns never weighs more than the budget of
    its language (1800 segments for ['ch'], 3000 blank-separated words
    otherwise), whatever the ranked lists, [topK], [verbose] and the sinks.
    And when the candidate [d] of list [docs] at round [i] is the one that
    would not fit on top of what has been [gathered], the call returns
    [gathered], in which [d] does not occur. *)
Theorem merge_docs_within_budget docs_list topK language verbose w :
  (total_words language (_merge_docs docs_list topK language verbose w).1
   ≤ budget language)%nat
  ∧ ∀ (i : nat) before docs after res0 cur0 gathered cur d,
      Z.of_nat i < topK →
      docs_list = (before ++ docs :: after)%list →
      merge_outer language verbose w (range (Z.of_nat i)) docs_list [] 0%nat
        = Continue res0 cur0 →
      merge_inner language verbose w i before res0 cur0
        = Continue gathered cur →
      docs !! i = Some d →
      d ∉ gathered →
      (budget language < cur + words_len language d)%nat →
      (_merge_docs docs_list topK language verbose w).1 = gathered
      ∧ d ∉ (_merge_docs docs_list topK language verbose w).1.
Proof.
  split.
  - destruct (merge_docs_spec docs_list topK language verbose w)
      as (cur & (Hcur & Hle & _) & _).
    by rewrite <- Hcur.
  - intros i before docs after res0 cur0 gathered cur d
      Hi Hlist Hrounds Hbefore Hd Hnew Hover.
    by rewrite (merge_docs_stop docs_list topK language verbose w i before
                  docs after res0 cur0 gathered cur d).
Qed.

(** C2. With a single ranked list and [topK > 0], [_merge_docs] returns at
    most [topK] passages, and no two of them are equal as values (same
    content and same metadata). *)
Theorem merge_single_list_bounded docs topK language verbose w :
  0 < topK →
  Z.of_nat (length (_merge_docs [docs] topK language verbose w).1) ≤ topK
  ∧ NoDup (_merge_docs [docs] topK language verbose w).1.
Proof.
  intros HtopK. split.
  - rewrite merge_docs_res.
    pose proof (merge_outer_single_length language verbose w (range topK)
                  docs [] 0%nat) as Hlen.
    unfold range in Hlen at 2. rewrite length_seq in Hlen. simpl in Hlen. lia.
  - destruct (merge_docs_spec [docs] topK language verbose w)
      as (cur & (_ & _ & Hnd) & _).
    done.
Qed.

(** One pass through the loop body for a candidate that is new. *)
Ltac new_candidate Hbudget Hwords Hlen :=
  rewrite merge_body_unfold; cbn [lookup list_lookup app];
  rewrite decide_False
    by (rewrite ?not_elem_of_cons; repeat split;
        first [congruence|apply not_elem_of_nil]);
  rewrite Hbudget, Hwords, Hlen.

(** C7. In a language other than ['ch'], three distinct passages of exactly
    1000 blank-separated words each, handed over as one ranked list with
    [topK = 3], all come back (3000 words are within the budget), and the
    entry appended to [logs] is ["words length: 3000"]. *)
Theorem merge_three_thousand_words d1 d2 d3 language verbose w :
  language ≠ "ch" →
  NoDup [d1; d2; d3] →
  length (split (page_content d1)) = 1000%nat →
  length (split (page_content d2)) = 1000%nat →
  length (split (page_content d3)) = 1000%nat →
  (_merge_docs [[d1; d2; d3]] 3 language verbose w).1 = [d1; d2; d3]
  ∧ logs (_merge_docs [[d1; d2; d3]] 3 language verbose w).2
    = (logs w ++ ["words length: 3000"])%list.
Proof.
  intros Hlang Hnd H1 H2 H3.
  apply NoDup_cons in Hnd as (Hd1 & Hnd).
  apply NoDup_cons in Hnd as (Hd2 & _).
  rewrite !not_elem_of_cons in Hd1. destruct Hd1 as (H12 & H13 & _).
  rewrite !not_elem_of_cons in Hd2. destruct Hd2 as (H23 & _).
  assert (budget language = 3000%nat) as Hbudget.
  { unfold budget. by rewrite decide_False. }
  assert (∀ d, words_len language d = length (split (page_content d)))
    as Hwords.
  { intros d. unfold words_len. by rewrite decide_False. }
  unfold _merge_docs, range.
  change (Z.to_nat 3) with 3%nat.
  cbn [seq merge_outer merge_inner].
  new_candidate Hbudget Hwords H1.
  destruct (Nat.ltb_spec 3000 (0 + 1000)); [lia|].
  new_candidate Hbudget Hwords H2.
  destruct (Nat.ltb_spec 3000 (0 + 1000 + 1000)); [lia|].
  new_candidate Hbudget Hwords H3.
  destruct (Nat.ltb_spec 3000 (0 + 1000 + 1000 + 1000)); [lia|].
  cbn [fst snd app]. split; [done|].
  rewrite log_words_logs. reflexivity.
Qed.

(** C8. The stop is immediate. Let round [i] reach list [docs] with
    [gathered] in hand, after the lists [before] it; if the candidate
    [docs[i]] is new and does not fit in the budget, the call returns
    [gathered] and logs its size: nothing is taken from the lists [after]
    it in that round, nor from any later round, whatever their candidates
    weigh. *)
Theorem merge_stops_mid_round docs_list topK language verbose w
    (i : nat) before docs after res0 cur0 gathered cur d :
  Z.of_nat i < topK →
  docs_list = (before ++ docs :: after)%list →
  merge_outer language verbose w (range (Z.of_nat i)) docs_list [] 0%nat
    = Continue res0 cur0 →
  merge_inner language verbose w i before res0 cur0
    = Continue gathered cur →
  docs !! i = Some d →
  d ∉ gathered →
  (budget language < cur + words_len language d)%nat →
  _merge_docs docs_list topK language verbose w
    = (gathered, log_words verbose cur w)
  ∧ ∀ later, later ∉ gathered →
             later ∉ (_merge_docs docs_list topK language verbose w).1.
Proof.
  intros Hi Hlist Hrounds Hbefore Hd Hnew Hover.
  rewrite (merge_docs_stop docs_list topK language verbose w i before
             docs after res0 cur0 gathered cur d) by done.
  by split.
Qed.

(** C10. Every call of [_merge_docs], on either exit, leaves [logs] as it
    was with exactly one entry added at the end: ["words length: "]
    followed by the word count of the list it returns. The list returned
    does not depend on the sinks it was handed. *)
Theorem merge_docs_appends_one_log docs_list topK language verbose w :
  logs (_merge_docs docs_list topK language verbose w).2
  = (logs w
     ++ ["words length: "
         +:+ str (total_words language
                    (_merge_docs docs_list topK language verbose w).1)])%list
  ∧ ∀ w2, (_merge_docs docs_list topK language verbose w2).1
          = (_merge_docs docs_list topK language verbose w).1.
Proof.
  split.
  - destruct (merge_docs_spec docs_list topK language verbose w)
      as (cur & (Hcur & _ & _) & Hsinks).
    rewrite Hsinks, log_words_logs. by rewrite Hcur.
  - intros w2. apply merge_docs_same.
Qed.

(** X2. Whatever the number of ranked lists, for [topK >= 0] the list
    [_merge_docs] returns holds no passage twice and at most [topK]
    passages per ranked list. *)
Theorem merge_docs_distinct_and_bounded docs_list topK language verbose w :
  0 ≤ topK →
  NoDup (_merge_docs docs_list topK language verbose w).1
  ∧ Z.of_nat (length (_merge_docs docs_list topK language verbose w).1)
    ≤ topK * Z.of_nat (length docs_list).
Proof.
  intros HtopK. split.
  - destruct (merge_docs_spec docs_list topK language verbose w)
      as (cur & (_ & _ & Hnd) & _).
    done.
  - rewrite merge_docs_res.
    pose proof (merge_outer_length language verbose w (range topK)
                  docs_list [] 0%nat) as Hlen.
    unfold range in Hlen at 2. rewrite length_seq in Hlen. simpl in Hlen.
    nia.
Qed.

(** X3. In a language other than ['ch'], of three distinct passages of
    exactly 1200 blank-separated words each, handed over as one ranked list
    with [topK = 3], the first two come back (the third would make 3600),
    and the entry appended to [logs] is ["words length: 2400"]. *)
Theorem merge_stops_at_2400 d1 d2 d3 language verbose w :
  language ≠ "ch" →
  NoDup [d1; d2; d3] →
  length (split (page_content d1)) = 1200%nat →
  length (split (page_content d2)) = 1200%nat →
  length (split (page_content d3)) = 1200%nat →
  (_merge_docs [[d1; d2; d3]] 3 language verbose w).1 = [d1; d2]
  ∧ logs (_merge_docs [[d1; d2; d3]] 3 language verbose w).2
    = (logs w ++ ["words length: 2400"])%list.
Proof.
  intros Hlang Hnd H1 H2 H3.
  apply NoDup_cons in Hnd as (Hd1 & Hnd).
  apply NoDup_cons in Hnd as (Hd2 & _).
  rewrite !not_elem_of_cons in Hd1. destruct Hd1 as (H12 & H13 & _).
  rewrite !not_elem_of_cons in Hd2. destruct Hd2 as (H23 & _).
  assert (budget language = 3000%nat) as Hbudget.
  { unfold budget. by rewrite decide_False. }
  assert (∀ d, words_len language d = length (split (page_content d)))
    as Hwords.
  { intros d. unfold words_len. by rewrite decide_False. }
  unfold _merge_docs, range.
  change (Z.to_nat 3) with 3%nat.
  cbn [seq merge_outer merge_inner].
  new_candidate Hbudget Hwords H1.
  destruct (Nat.ltb_spec 3000 (0 + 1200)); [lia|].
  new_candidate Hbudget Hwords H2.
  destruct (Nat.ltb_spec 3000 (0 + 1200 + 1200)); [lia|].
  new_candidate Hbudget Hwords H3.
  destruct (Nat.ltb_spec 3000 (0 + 1200 + 1200 + 1200)); [|lia].
  cbn [fst snd app]. split; [done|].
  rewrite log_words_logs. reflexivity.
Qed.

End MergeClaims.

Section RetrieverClaims.
Context `{Services}.

(** C3, as the code has it. On an empty corpus the margin retriever returns
    no list: stacking the query embedding on an embedding array without
    rows raises [ValueError], and the retriever lets it through. *)
Theorem svm_empty_corpus_raises (db : DB) query k relevancy_threshold :
  embeddings db = [] →
  _get_relevant_doc_svm db query k relevancy_threshold = Raise ValueError.
Proof. intros Hempty. unfold _get_relevant_doc_svm. by rewrite Hempty. Qed.

(** C5. A [search_type] other than ['merge'], ['mmr'], ['svm'] and
    ['tfidf'] makes [get_docs] return [None] without raising, and adds to
    [logs] one message that names the search type. *)
Theorem get_docs_unknown_search_type db query topK threshold language
    search_type verbose w :
  search_type ∉ ["merge"; "mmr"; "svm"; "tfidf"] →
  (get_docs db query topK threshold language search_type verbose w).1
  = Ok None
  ∧ logs (get_docs db query topK threshold language search_type verbose w).2
    = (logs w ++ ["cannot find search type " +:+ search_type
                  +:+ ", end process" +:+ newline])%list.
Proof.
  intros Hunknown. rewrite !not_elem_of_cons in Hunknown.
  destruct Hunknown as (Hmerge & Hmmr & Hsvm & Htfidf & _).
  unfold get_docs. by rewrite !decide_False by done.
Qed.

(** C6. For a store of [N >= 1] aligned passages whose embeddings have the
    width of the query's, a solver that returns one score per row and
    [0 <= k <= N], the margin retriever returns a list [docs]: the
    passages stored at [row - 1] for the rows of its final loop that pass
    the threshold, in order. Row 0, the query's, is not among the rows of
    that loop; [docs] has at most [k] entries, and at most as many as there
    are corpus rows whose normalized score passes the threshold. *)
Theorem svm_output_bounded (db : DB) query (k : Z) relevancy_threshold
    (N : nat) (similarities : list Q) :
  argsort_permutes →
  (1 ≤ N)%nat →
  length (documents db) = N →
  length (metadatas db) = N →
  length (embeddings db) = N →
  Forall (λ row, length row = length (embed_query query)) (embeddings db) →
  linear_svc (embed_query query :: embeddings db) (1 :: replicate N 0)
    = Ok similarities →
  length similarities = S N →
  0 ≤ k ≤ Z.of_nat N →
  ∃ docs rows normalized,
    _get_relevant_doc_svm db query k relevancy_threshold = Ok docs
    ∧ svm_rows similarities k = Ok rows
    ∧ normalize similarities = Ok normalized
    ∧ (0 ∉ rows)
    ∧ Forall2 (λ row d, stored_at db (row - 1) d)
        (filter (λ row, Is_true (passes normalized relevancy_threshold row))
           rows) docs
    ∧ Z.of_nat (length docs) ≤ k
    ∧ (length docs
       ≤ length (filter
                   (λ row, Is_true (passes normalized relevancy_threshold row))
                   (seqZ 1 (Z.of_nat N))))%nat.
Proof.
  intros Hperm HN Hdocs Hmetas Hembs Hwidth Hfit Hscores Hk.
  destruct (svm_rows_ok similarities k N Hperm Hscores)
    as (rows & Hrows & Hnd & Hrange & Hlen).
  destruct (normalize_ok similarities N Hscores)
    as (normalized & Hnorm & Hnormlen).
  destruct (svm_collect_ok db normalized relevancy_threshold rows N
              Hdocs Hmetas Hnormlen Hrange) as (docs & Hcollect & Hrel).
  exists docs, rows, normalized.
  assert (length docs
          = length (filter
                      (λ row, Is_true (passes normalized relevancy_threshold row))
                      rows)) as Hlendocs.
  { symmetry. by eapply Forall2_length. }
  repeat split; try done.
  - unfold _get_relevant_doc_svm.
    rewrite np_concatenate_ok;
      [|intros Hnil; rewrite Hnil in Hembs; simpl in Hembs; lia|done].
    simpl. rewrite Hembs.
    replace (N - 0)%nat with N by lia.
    rewrite Hfit. simpl. rewrite Hrows. simpl. rewrite Hnorm. simpl. done.
  - intros Hzero. apply Hrange in Hzero. lia.
  - rewrite Hlendocs.
    pose proof (length_filter
                  (λ row, Is_true (passes normalized relevancy_threshold row))
                  rows).
    specialize (Hlen (proj1 Hk)). lia.
  - rewrite Hlendocs. apply submseteq_length, NoDup_submseteq.
    + by apply NoDup_filter.
    + intros row Hrow. apply list_elem_of_filter in Hrow as (Hpass & Hin).
      apply list_elem_of_filter. split; [done|].
      apply elem_of_seqZ. apply Hrange in Hin. lia.
Qed.

(** C9. The locate-and-swap step is idempotent: on every index array that
    holds 0 it succeeds, and applied to its own result it returns that
    result unchanged. *)
Theorem put_query_first_idempotent (sorted_ix : list Z) :
  0 ∈ sorted_ix →
  ∃ once, put_query_first sorted_ix = Ok once
          ∧ put_query_first once = Ok once.
Proof.
  intros Hin.
  destruct (put_query_first_ok sorted_ix Hin) as (once & Hrun & Hhead & _).
  exists once. split; [done|]. by apply put_query_first_fixed.
Qed.

End RetrieverClaims.

(** * The claims on the sample store *)

Section Instances.
#[local] Existing Instance Sample.services.

Lemma merge_docs_within_budget_witness :
  (total_words "en"
     (@_merge_docs Sample.services Sample.two_lists 2 "en" false
        Sample.no_sinks).1 ≤ 3000)%nat
  ∧ (@_merge_docs Sample.services Sample.two_lists 2 "en" false
       Sample.no_sinks).1 = [Sample.heavy; Sample.middle]
  ∧ Sample.late ∉ (@_merge_docs Sample.services Sample.two_lists 2 "en" false
                     Sample.no_sinks).1.
Proof.
  destruct (@merge_docs_within_budget Sample.services Sample.two_lists 2
              "en" false Sample.no_sinks) as [Hbudget Hstop].
  split; [exact Hbudget|].
  apply (Hstop 1%nat [] [Sample.heavy; Sample.late]
           [[Sample.middle; Sample.light]]
           [Sample.heavy; Sample.middle] 2900%nat
           [Sample.heavy; Sample.middle] 2900%nat Sample.late).
  - lia.
  - reflexivity.
  - vm_compute. reflexivity.
  - reflexivity.
  - reflexivity.
  - apply (bool_decide_unpack _). vm_compute. exact I.
  - vm_compute. lia.
Defined.

Lemma merge_single_list_bounded_witness :
  Z.of_nat (length (@_merge_docs Sample.services
                      [[Sample.p1; Sample.p1; Sample.p2]] 2 "en" false
                      Sample.no_sinks).1) ≤ 2
  ∧ NoDup (@_merge_docs Sample.services
             [[Sample.p1; Sample.p1; Sample.p2]] 2 "en" false
             Sample.no_sinks).1.
Proof.
  apply (@merge_single_list_bounded Sample.services
           [Sample.p1; Sample.p1; Sample.p2] 2 "en" false Sample.no_sinks).
  lia.
Defined.

Lemma merge_three_thousand_words_witness :
  (@_merge_docs Sample.services [[Sample.p1; Sample.p2; Sample.p3]] 3 "en"
     true Sample.no_sinks).1 = [Sample.p1; Sample.p2; Sample.p3]
  ∧ logs (@_merge_docs Sample.services [[Sample.p1; Sample.p2; Sample.p3]] 3
            "en" true Sample.no_sinks).2
    = ([] ++ ["words length: 3000"])%list.
Proof.
  apply (@merge_three_thousand_words Sample.services Sample.p1 Sample.p2
           Sample.p3 "en" true Sample.no_sinks).
  - discriminate.
  - apply (bool_decide_unpack _). vm_compute. exact I.
  - vm_compute. reflexivity.
  - vm_compute. reflexivity.
  - vm_compute. reflexivity.
Defined.

Lemma merge_stops_mid_round_witness :
  (2900 + @words_len Sample.services "en" Sample.light ≤ budget "en")%nat
  ∧ @_merge_docs Sample.services Sample.two_lists 2 "en" false
      Sample.no_sinks
    = ([Sample.heavy; Sample.middle],
       log_words false 2900 Sample.no_sinks)
  ∧ ∀ later, later ∉ [Sample.heavy; Sample.middle] →
             later ∉ (@_merge_docs Sample.services Sample.two_lists 2 "en"
                        false Sample.no_sinks).1.
Proof.
  split; [vm_compute; lia|].
  apply (@merge_stops_mid_round Sample.services Sample.two_lists 2 "en"
           false Sample.no_sinks 1%nat [] [Sample.heavy; Sample.late]
           [[Sample.middle; Sample.light]]
           [Sample.heavy; Sample.middle] 2900%nat
           [Sample.heavy; Sample.middle] 2900%nat Sample.late).
  - lia.
  - reflexivity.
  - vm_compute. reflexivity.
  - reflexivity.
  - reflexivity.
  - apply (bool_decide_unpack _). vm_compute. exact I.
  - vm_compute. lia.
Defined.

Lemma svm_empty_corpus_raises_witness :
  @_get_relevant_doc_svm Sample.services Sample.empty_db "red wolf" 3 None
  = Raise ValueError.
Proof.
  apply (@svm_empty_corpus_raises Sample.services Sample.empty_db
           "red wolf" 3 None).
  reflexivity.
Defined.

(** C3, as stated, fails: on the empty store the margin retriever does not
    return the empty list. *)
Lemma svm_empty_corpus_not_empty_list :
  ¬ (∀ query k relevancy_threshold,
       @_get_relevant_doc_svm Sample.services Sample.empty_db query k
         relevancy_threshold = Ok []).
Proof. intros Hclaim. specialize (Hclaim "red wolf" 3 None). discriminate. Qed.

Lemma get_docs_unknown_search_type_witness :
  (get_docs Sample.db5 "red wolf" 2 None "en" "unknown" false
     Sample.no_sinks).1 = Ok None
  ∧ logs (get_docs Sample.db5 "red wolf" 2 None "en" "unknown" false
            Sample.no_sinks).2
    = ([] ++ ["cannot find search type " +:+ "unknown"
              +:+ ", end process" +:+ newline])%list.
Proof.
  apply (@get_docs_unknown_search_type Sample.services Sample.db5 "red wolf"
           2 None "en" "unknown" false Sample.no_sinks).
  apply (bool_decide_unpack _). vm_compute. exact I.
Defined.

Lemma svm_output_bounded_witness :
  ∃ docs rows normalized,
    _get_relevant_doc_svm Sample.db5 "abc" 3 (Some (1 # 2)) = Ok docs
    ∧ svm_rows [10%Q; 10%Q; 16%Q; 7%Q; 22%Q; 13%Q] 3 = Ok rows
    ∧ normalize [10%Q; 10%Q; 16%Q; 7%Q; 22%Q; 13%Q] = Ok normalized
    ∧ (0 ∉ rows)
    ∧ Forall2 (λ row d, stored_at Sample.db5 (row - 1) d)
        (filter (λ row, Is_true (passes normalized (Some (1 # 2)) row))
           rows) docs
    ∧ Z.of_nat (length docs) ≤ 3
    ∧ (length docs
       ≤ length (filter
                   (λ row, Is_true (passes normalized (Some (1 # 2)) row))
                   (seqZ 1 (Z.of_nat 5))))%nat.
Proof.
  apply (@svm_output_bounded Sample.services Sample.db5 "abc" 3
           (Some (1 # 2)) 5 [10%Q; 10%Q; 16%Q; 7%Q; 22%Q; 13%Q]).
  - exact sample_argsort_permutes.
  - lia.
  - reflexivity.
  - reflexivity.
  - reflexivity.
  - repeat constructor.
  - vm_compute. reflexivity.
  - reflexivity.
  - lia.
Defined.

Lemma put_query_first_idempotent_witness :
  ∃ once, put_query_first [4; 2; 5; 0; 1; 3] = Ok once
          ∧ put_query_first once = Ok once.
Proof.
  apply (put_query_first_idempotent [4; 2; 5; 0; 1; 3]).
  apply (bool_decide_unpack _). vm_compute. exact I.
Defined.

(** C4 at a store of five passages and [k = 5]: the retriever built by
    [from_documents] keeps its own [k = 4], so four passages come back, not
    [min(5, 5)]. *)
Theorem tfidf_returns_four_of_five :
  ∃ docs,
    @_get_relevant_doc_tfidf Sample.services Sample.db5 "red wolf" 5
    = Ok docs
    ∧ length docs = 4%nat
    ∧ Z.min 5 (Z.of_nat (length (documents Sample.db5))) = 5.
Proof. eexists. split; [vm_compute; reflexivity|]. by split. Qed.

Lemma tfidf_length_witness :
  ∃ docs, _get_relevant_doc_tfidf Sample.db5 "red wolf" 5 = Ok docs
          ∧ Z.of_nat (length docs) = Z.min 5 (Z.min 4 (Z.of_nat 5)).
Proof.
  apply (@tfidf_length Sample.services Sample.db5 "red wolf" 5 5).
  - exact sample_argsort_permutes.
  - lia.
  - reflexivity.
  - reflexivity.
  - intros texts Htexts. eexists. split; [reflexivity|].
    by rewrite length_fmap.
  - lia.
Defined.

Lemma merge_docs_distinct_and_bounded_witness :
  NoDup (_merge_docs Sample.two_lists 2 "en" false Sample.no_sinks).1
  ∧ Z.of_nat
      (length (_merge_docs Sample.two_lists 2 "en" false Sample.no_sinks).1)
    ≤ 2 * Z.of_nat (length Sample.two_lists).
Proof.
  apply (@merge_docs_distinct_and_bounded Sample.services Sample.two_lists 2
           "en" false Sample.no_sinks).
  lia.
Defined.

Lemma merge_stops_at_2400_witness :
  (_merge_docs [[Sample.q1; Sample.q2; Sample.q3]] 3 "en" false
     Sample.no_sinks).1 = [Sample.q1; Sample.q2]
  ∧ logs (_merge_docs [[Sample.q1; Sample.q2; Sample.q3]] 3 "en" false
            Sample.no_sinks).2
    = ([] ++ ["words length: 2400"])%list.
Proof.
  apply (@merge_stops_at_2400 Sample.services Sample.q1 Sample.q2 Sample.q3
           "en" false Sample.no_sinks).
  - discriminate.
  - apply (bool_decide_unpack _). vm_compute. exact I.
  - vm_compute. reflexivity.
  - vm_compute. reflexivity.
  - vm_compute. reflexivity.
Defined.

End Instances.

(** * Further properties of _merge_docs *)

Section MergeOrder.
Context `{Services}.

(** The candidates of round [i], one per ranked list long enough, in the
    order of the lists. *)
Definition round_candidates (i : nat) (docs_list : list (list Document))
    : list Document :=
  omap (λ docs : list Document, docs !! i) docs_list.

(** The candidates in the order the two loops visit them. *)
Fixpoint schedule (rounds : list nat) (docs_list : list (list Document))
    : list Document :=
  match rounds with
  | [] => []
  | i :: later => round_candidates i docs_list ++ schedule later docs_list
  end.

Definition round_robin (docs_list : list (list Document)) (topK : Z)
    : list Document :=
  schedule (range topK) docs_list.

Lemma round_candidates_cons i docs rest :
  round_candidates i (docs :: rest)
  = match docs !! i with
    | Some d => d :: round_candidates i rest
    | None => round_candidates i rest
    end.
Proof. done. Qed.

Lemma elem_of_schedule rounds docs_list d :
  d ∈ schedule rounds docs_list →
  ∃ docs i, docs ∈ docs_list ∧ i ∈ rounds ∧ docs !! i = Some d.
Proof.
  induction rounds as [|i later IH]; simpl; intros Hd.
  { by apply elem_of_nil in Hd. }
  apply elem_of_app in Hd as [Hd|Hd].
  - apply list_elem_of_omap in Hd as (docs & Hdocs & Hi).
    exists docs, i. repeat split; [done|left|done].
  - destruct (IH Hd) as (docs & j & Hdocs & Hj & Hlook).
    exists docs, j. repeat split; [done|by right|done].
Qed.

(** What a round adds is picked, in order, from the candidates of the
    round. *)
Lemma merge_inner_visits language verbose w i docs_list res cur :
  ∃ taken,
    flow_res (merge_inner language verbose w i docs_list res cur)
    = (res ++ taken)%list
    ∧ taken `sublist_of` round_candidates i docs_list.
Proof.
  revert res cur.
  induction docs_list as [|docs rest IH]; intros res cur.
  { exists []. simpl. by rewrite app_nil_r. }
  cbn [merge_inner]. rewrite merge_body_unfold, round_candidates_cons.
  destruct (docs !! i) as [d|]; [|apply IH].
  destruct (decide (d ∈ res)).
  { destruct (IH res cur) as (taken & -> & Hsub).
    exists taken. split; [done|by apply sublist_cons]. }
  destruct (_ <? _)%nat.
  - exists []. split; [by rewrite app_nil_r|apply sublist_nil_l].
  - destruct (IH (res ++ [d])%list (cur + words_len language d)%nat)
      as (taken & -> & Hsub).
    exists (d :: taken). split; [by rewrite <- app_assoc|].
    by apply sublist_skip.
Qed.

Lemma merge_outer_visits language verbose w rounds docs_list res cur :
  ∃ taken,
    flow_res (merge_outer language verbose w rounds docs_list res cur)
    = (res ++ taken)%list
    ∧ taken `sublist_of` schedule rounds docs_list.
Proof.
  revert res cur.
  induction rounds as [|i later IH]; intros res cur; simpl.
  { exists []. by rewrite app_nil_r. }
  destruct (merge_inner_visits language verbose w i docs_list res cur)
    as (first & Hfirst & Hsub).
  destruct (merge_inner language verbose w i docs_list res cur)
    as [r c|r w']; simpl in Hfirst; subst r.
  - destruct (IH (res ++ first)%list c) as (taken & -> & Hsub').
    exists (first ++ taken)%list. split; [by rewrite app_assoc|].
    by apply sublist_app.
  - exists first. split; [done|]. by apply sublist_inserts_r.
Qed.

(** When the candidates of a round are new, distinct and fit, the round
    takes them all. *)
Lemma merge_inner_all language verbose w i docs_list res cur :
  NoDup (res ++ round_candidates i docs_list) →
  (cur + total_words language (round_candidates i docs_list)
   ≤ budget language)%nat →
  merge_inner language verbose w i docs_list res cur
  = Continue (res ++ round_candidates i docs_list)
      (cur + total_words language (round_candidates i docs_list)).
Proof.
  revert res cur.
  induction docs_list as [|docs rest IH]; intros res cur.
  { intros _ _. unfold round_candidates, total_words. simpl.
    by rewrite app_nil_r, Nat.add_0_r. }
  cbn [merge_inner]. rewrite merge_body_unfold, round_candidates_cons.
  destruct (docs !! i) as [d|]; [|apply IH].
  intros Hnd Hfit.
  assert (d ∉ res) as Hnew.
  { apply NoDup_app in Hnd as (_ & Hdisj & _).
    intros Hin. apply (Hdisj d Hin). left. }
  rewrite decide_False by done.
  unfold total_words in Hfit. simpl in Hfit.
  fold (total_words language (round_candidates i rest)) in Hfit.
  destruct (Nat.ltb_spec (budget language) (cur + words_len language d));
    [lia|].
  rewrite IH.
  - rewrite <- app_assoc. simpl. f_equal.
    unfold total_words. simpl. lia.
  - by rewrite <- app_assoc.
  - lia.
Qed.

Lemma merge_outer_all language verbose w rounds docs_list res cur :
  NoDup (res ++ schedule rounds docs_list) →
  (cur + total_words language (schedule rounds docs_list)
   ≤ budget language)%nat →
  merge_outer language verbose w rounds docs_list res cur
  = Continue (res ++ schedule rounds docs_list)
      (cur + total_words language (schedule rounds docs_list)).
Proof.
  revert res cur.
  induction rounds as [|i later IH]; intros res cur; simpl.
  { intros _ _. unfold total_words. simpl.
    by rewrite app_nil_r, Nat.add_0_r. }
  intros Hnd Hfit.
  unfold total_words in Hfit. rewrite sum_list_with_app in Hfit.
  fold (total_words language (round_candidates i docs_list)) in Hfit.
  fold (total_words language (schedule later docs_list)) in Hfit.
  rewrite app_assoc in Hnd.
  rewrite merge_inner_all.
  - rewrite IH; [|done|lia].
    rewrite <- app_assoc. f_equal.
    unfold total_words. rewrite sum_list_with_app. lia.
  - by apply NoDup_app in Hnd as (Hnd & _).
  - lia.
Qed.

(** A run only ever adds to what it was handed. *)
Lemma merge_outer_prefix language verbose w rounds docs_list res cur :
  res `prefix_of`
    flow_res (merge_outer language verbose w rounds docs_list res cur).
Proof.
  destruct (merge_outer_visits language verbose w rounds docs_list res cur)
    as (taken & -> & _).
  by exists taken.
Qed.

Lemma round_robin_single docs topK :
  round_robin [docs] topK = take (Z.to_nat topK) docs.
Proof.
  unfold round_robin, range.
  assert (∀ n a, schedule (seq a n) [docs] = take n (drop a docs)) as Hgen.
  { induction n as [|n IH]; intros a; simpl; [done|].
    rewrite IH. unfold round_candidates. simpl.
    destruct (docs !! a) as [d|] eqn:Hd.
    - simpl. by rewrite (drop_S docs d a Hd).
    - apply lookup_ge_None in Hd.
      rewrite (drop_ge docs a), (drop_ge docs (S a)) by lia.
      by rewrite !take_nil. }
  by rewrite Hgen, drop_0.
Qed.

Lemma schedule_empty_lists rounds docs_list :
  Forall (λ docs, docs = []) docs_list → schedule rounds docs_list = [].
Proof.
  intros Hlists.
  assert (∀ i, round_candidates i docs_list = []) as Hround.
  { intros i. induction Hlists as [|docs rest -> _ IH]; [done|].
    by rewrite round_candidates_cons. }
  induction rounds as [|i later IH]; simpl; [done|].
  by rewrite Hround, IH.
Qed.

Lemma merge_docs_in_visit_order_sub docs_list topK language verbose w :
  (_merge_docs docs_list topK language verbose w).1
    `sublist_of` round_robin docs_list topK.
Proof.
  rewrite merge_docs_res.
  destruct (merge_outer_visits language verbose w (range topK) docs_list
              [] 0%nat) as (taken & -> & Hsub).
  done.
Qed.

(** X4. The list [_merge_docs] returns is picked, in order, from the
    candidates as the loops visit them (round 0 of each ranked list in
    turn, then round 1, ...): every passage returned stands in one of the
    ranked lists at a position below [topK]. *)
Theorem merge_docs_in_visit_order docs_list topK language verbose w :
  (_merge_docs docs_list topK language verbose w).1
    `sublist_of` round_robin docs_list topK
  ∧ ∀ d, d ∈ (_merge_docs docs_list topK language verbose w).1 →
         ∃ docs (i : nat),
           docs ∈ docs_list ∧ Z.of_nat i < topK ∧ docs !! i = Some d.
Proof.
  rewrite merge_docs_res.
  destruct (merge_outer_visits language verbose w (range topK) docs_list
              [] 0%nat) as (taken & -> & Hsub).
  simpl. split; [done|].
  intros d Hd.
  destruct (elem_of_schedule (range topK) docs_list d)
    as (docs & i & Hdocs & Hi & Hlook).
  { by eapply elem_of_sublist. }
  exists docs, i. repeat split; [done| |done].
  unfold range in Hi. apply elem_of_seq in Hi. lia.
Qed.

(** X5. When the candidates of the first [topK] rounds are pairwise
    distinct and their words fit in the budget together, [_merge_docs]
    returns all of them, interleaved as the rounds visit them, and logs
    their word count. *)
Theorem merge_docs_takes_all_that_fit docs_list topK language verbose w :
  NoDup (round_robin docs_list topK) →
  (total_words language (round_robin docs_list topK)
   ≤ budget language)%nat →
  _merge_docs docs_list topK language verbose w
  = (round_robin docs_list topK,
     log_words verbose (total_words language (round_robin docs_list topK))
       w).
Proof.
  intros Hnd Hfit. unfold _merge_docs, round_robin in *.
  by rewrite merge_outer_all.
Qed.

(** X6. With one ranked list of pairwise distinct passages whose first
    [topK] fit in the budget together, the result is exactly those first
    [topK] passages, in rank order. *)
Theorem merge_single_list_prefix docs topK language verbose w :
  NoDup docs →
  (total_words language (take (Z.to_nat topK) docs)
   ≤ budget language)%nat →
  (_merge_docs [docs] topK language verbose w).1
  = take (Z.to_nat topK) docs.
Proof.
  intros Hnd Hfit. unfold _merge_docs.
  rewrite <- round_robin_single in *. unfold round_robin in *.
  rewrite merge_outer_all; [done| |done].
  simpl. fold (round_robin [docs] topK). rewrite round_robin_single.
  eapply sublist_NoDup; [exact Hnd|apply sublist_take].
Qed.

(** X7. Asking for more rounds never changes what fewer rounds selected:
    the result for [topK] is a prefix of the result for any larger
    [topK']. *)
Theorem merge_docs_topK_prefix docs_list (topK topK' : Z) language verbose w :
  topK ≤ topK' →
  (_merge_docs docs_list topK language verbose w).1
    `prefix_of` (_merge_docs docs_list topK' language verbose w).1.
Proof.
  intros Hle. rewrite !merge_docs_res.
  assert (range topK'
          = (range topK
             ++ seq (Z.to_nat topK) (Z.to_nat topK' - Z.to_nat topK))%list)
    as ->.
  { unfold range. rewrite <- seq_app. f_equal. lia. }
  rewrite merge_outer_app.
  destruct (merge_outer language verbose w (range topK) docs_list [] 0%nat)
    as [r c|r w']; simpl; [|done].
  apply merge_outer_prefix.
Qed.

(** X8. When there is nothing to take ([topK <= 0], or every ranked list is
    empty, or there is none), [_merge_docs] returns the empty list and
    the entry it logs is ["words length: 0"]. *)
Theorem merge_docs_nothing_to_take docs_list topK language verbose w :
  topK ≤ 0 ∨ Forall (λ docs, docs = []) docs_list →
  (_merge_docs docs_list topK language verbose w).1 = []
  ∧ logs (_merge_docs docs_list topK language verbose w).2
    = (logs w ++ ["words length: 0"])%list.
Proof.
  intros Hnothing.
  assert (round_robin docs_list topK = []) as Hempty.
  { unfold round_robin, range. destruct Hnothing as [HtopK|Hlists].
    - by replace (Z.to_nat topK) with 0%nat by lia.
    - apply schedule_empty_lists, Hlists. }
  unfold _merge_docs.
  pose proof (merge_outer_all language verbose w (range topK) docs_list
                [] 0%nat) as Hall.
  fold (round_robin docs_list topK) in Hall. rewrite Hempty in Hall.
  rewrite Hall; [|constructor|simpl; lia].
  cbn [fst snd]. split; [done|]. by rewrite log_words_logs.
Qed.

(** X9. A first candidate that is over the budget on its own leaves the
    result empty, whatever else the ranked lists hold. *)
Theorem merge_docs_oversize_first docs after d topK language verbose w :
  0 < topK →
  docs !! 0%nat = Some d →
  (budget language < words_len language d)%nat →
  (_merge_docs (docs :: after) topK language verbose w).1 = []
  ∧ logs (_merge_docs (docs :: after) topK language verbose w).2
    = (logs w ++ ["words length: 0"])%list.
Proof.
  intros HtopK Hd Hover.
  rewrite (merge_docs_stop (docs :: after) topK language verbose w 0%nat
             [] docs after [] 0%nat [] 0%nat d);
    try done.
  - cbn [fst snd]. split; [done|]. by rewrite log_words_logs.
  - apply not_elem_of_nil.
Qed.

End MergeOrder.

(** * [verbose] and the dispatch *)

Section DispatchProofs.
Context `{Services}.

(** Two runs that differ only in [verbose] and in the sinks take the same
    path. *)
Definition flow_alike (verbose1 verbose2 : bool) (w1 w2 : Sinks)
    (f1 f2 : flow) : Prop :=
  match f1, f2 with
  | Continue r1 c1, Continue r2 c2 => r1 = r2 ∧ c1 = c2
  | Return r1 w1', Return r2 w2' =>
      r1 = r2 ∧ ∃ cur, w1' = log_words verbose1 cur w1
                       ∧ w2' = log_words verbose2 cur w2
  | _, _ => False
  end.

Lemma merge_body_alike language v1 v2 w1 w2 i docs res cur :
  flow_alike v1 v2 w1 w2
    (merge_body language v1 w1 i docs res cur)
    (merge_body language v2 w2 i docs res cur).
Proof.
  rewrite !merge_body_unfold.
  destruct (docs !! i) as [d|]; simpl; [|done].
  destruct (decide (d ∈ res)); simpl; [done|].
  destruct (_ <? _)%nat; simpl; [|done].
  split; [done|]. by exists cur.
Qed.

Lemma merge_inner_alike language v1 v2 w1 w2 i docs_list res cur :
  flow_alike v1 v2 w1 w2
    (merge_inner language v1 w1 i docs_list res cur)
    (merge_inner language v2 w2 i docs_list res cur).
Proof.
  revert res cur.
  induction docs_list as [|docs rest IH]; intros res cur; simpl; [done|].
  pose proof (merge_body_alike language v1 v2 w1 w2 i docs res cur) as Hb.
  destruct (merge_body language v1 w1 i docs res cur),
           (merge_body language v2 w2 i docs res cur);
    simpl in Hb; try done.
  destruct Hb as [-> ->]. apply IH.
Qed.

Lemma merge_outer_alike language v1 v2 w1 w2 rounds docs_list res cur :
  flow_alike v1 v2 w1 w2
    (merge_outer language v1 w1 rounds docs_list res cur)
    (merge_outer language v2 w2 rounds docs_list res cur).
Proof.
  revert res cur.
  induction rounds as [|i later IH]; intros res cur; simpl; [done|].
  pose proof (merge_inner_alike language v1 v2 w1 w2 i docs_list res cur)
    as Hb.
  destruct (merge_inner language v1 w1 i docs_list res cur),
           (merge_inner language v2 w2 i docs_list res cur);
    simpl in Hb; try done.
  destruct Hb as [-> ->]. apply IH.
Qed.

Lemma merge_docs_alike docs_list topK language v1 v2 w1 w2 :
  (_merge_docs docs_list topK language v1 w1).1
  = (_merge_docs docs_list topK language v2 w2).1.
Proof.
  rewrite !merge_docs_res.
  pose proof (merge_outer_alike language v1 v2 w1 w2 (range topK)
                docs_list [] 0%nat) as Hs.
  destruct (merge_outer language v1 w1 (range topK) docs_list [] 0%nat),
           (merge_outer language v2 w2 (range topK) docs_list [] 0%nat);
    simpl in *; try done; by destruct Hs.
Qed.

Lemma log_words_stdout verbose cur w :
  stdout (log_words verbose cur w)
  = if verbose
    then (stdout w ++ ["words length:  " +:+ str cur +:+ newline])%list
    else stdout w.
Proof. unfold log_words. by destruct verbose. Qed.

(** X10. [verbose] changes nothing but what is printed: the list returned
    and the entry appended to [logs] are the same with and without it;
    without it nothing is printed, with it exactly one line, the two
    arguments of [print] joined by a space. *)
Theorem merge_docs_verbose_only_prints docs_list topK language w :
  (_merge_docs docs_list topK language true w).1
  = (_merge_docs docs_list topK language false w).1
  ∧ logs (_merge_docs docs_list topK language true w).2
    = logs (_merge_docs docs_list topK language false w).2
  ∧ stdout (_merge_docs docs_list topK language false w).2 = stdout w
  ∧ stdout (_merge_docs docs_list topK language true w).2
    = (stdout w
       ++ ["words length:  "
           +:+ str (total_words language
                      (_merge_docs docs_list topK language true w).1)
           +:+ newline])%list.
Proof.
  pose proof (merge_docs_alike docs_list topK language true false w w)
    as Hres.
  destruct (merge_docs_spec docs_list topK language true w)
    as (c1 & (Hc1 & _ & _) & Hw1).
  destruct (merge_docs_spec docs_list topK language false w)
    as (c2 & (Hc2 & _ & _) & Hw2).
  rewrite Hw1, Hw2, !log_words_logs, !log_words_stdout.
  rewrite Hc1, Hc2, Hres. done.
Qed.

(** What the four known branches of [get_docs] do with the ranked lists
    they obtained. *)
Lemma get_docs_known db query topK threshold language search_type verbose w :
  search_type ∈ ["merge"; "mmr"; "svm"; "tfidf"] →
  ∃ found : result (list (list Document)),
    get_docs db query topK threshold language search_type verbose w
    = match found with
      | Ok docs_list =>
          (Ok (Some (_merge_docs docs_list topK language verbose w).1),
           (_merge_docs docs_list topK language verbose w).2)
      | Raise e => (Raise e, w)
      end.
Proof.
  intros Hknown. unfold get_docs.
  repeat (apply elem_of_cons in Hknown as [->|Hknown]);
    [..|by apply elem_of_nil in Hknown];
    repeat (first [rewrite decide_True by done
                  |rewrite decide_False by done]);
    eexists;
    (match goal with
     | |- match ?found with _ => _ end = _ =>
         instantiate (1 := found); destruct found as [docs_list|e];
         [by destruct (_merge_docs docs_list topK language verbose w)|done]
     end).
Qed.

(** X11. For each of the four known search types [get_docs] either raises
    what a retriever raised, leaving the sinks as they were, or returns a
    list (never [None]): one without repeated passages, within the budget
    of the language, with its word count as the one entry added to
    [logs]. *)
Theorem get_docs_known_type_contract db query topK threshold language
    search_type verbose w :
  search_type ∈ ["merge"; "mmr"; "svm"; "tfidf"] →
  match
    (get_docs db query topK threshold language search_type verbose w).1
  with
  | Ok (Some docs) =>
      NoDup docs
      ∧ (total_words language docs ≤ budget language)%nat
      ∧ logs (get_docs db query topK threshold language search_type
                verbose w).2
        = (logs w ++ ["words length: "
                      +:+ str (total_words language docs)])%list
  | Ok None => False
  | Raise e =>
      (get_docs db query topK threshold language search_type verbose w).2
      = w
  end.
Proof.
  intros Hknown.
  destruct (get_docs_known db query topK threshold language search_type
              verbose w Hknown) as ([docs_list|e] & ->); [|done].
  cbn [fst snd].
  destruct (merge_docs_spec docs_list topK language verbose w)
    as (cur & (Hcur & Hle & Hnd) & Hsinks).
  split; [done|]. split; [by rewrite <- Hcur|].
  by rewrite Hsinks, log_words_logs, Hcur.
Qed.

(** X12. On a store without embeddings [get_docs] raises [ValueError] and
    writes nothing, both for ['svm'] and, once the MMR search has
    returned, for ['merge']: the margin retriever fails before anything
    is merged. *)
Theorem get_docs_empty_store db query topK threshold language search_type
    verbose w :
  embeddings db = [] →
  search_type = "svm"
  ∨ (search_type = "merge"
     ∧ ∃ docs_mmr, mmr_search db query topK threshold = Ok docs_mmr) →
  get_docs db query topK threshold language search_type verbose w
  = (Raise ValueError, w).
Proof.
  intros Hempty [->|(-> & docs_mmr & Hmmr)]; unfold get_docs.
  - rewrite decide_False by done. rewrite decide_False by done.
    rewrite decide_True by done.
    unfold _get_relevant_doc_svm. by rewrite Hempty.
  - rewrite decide_True by done.
    unfold _get_relevant_doc_mmr, _get_relevant_doc_svm.
    by rewrite Hmmr, Hempty.
Qed.

(** X13. In ['merge'] mode the first passage of the MMR search comes
    first in the result, provided [topK > 0], the other two retrievers
    return, and that passage fits in the budget on its own. *)
Theorem get_docs_merge_starts_with_mmr db query topK threshold language
    verbose w d rest docs_svm docs_tfidf :
  0 < topK →
  _get_relevant_doc_mmr db query topK threshold = Ok (d :: rest) →
  _get_relevant_doc_svm db query topK threshold = Ok docs_svm →
  _get_relevant_doc_tfidf db query topK = Ok docs_tfidf →
  (words_len language d ≤ budget language)%nat →
  ∃ others,
    (get_docs db query topK threshold language "merge" verbose w).1
    = Ok (Some (d :: others)).
Proof.
  intros HtopK Hmmr Hsvm Htfidf Hfits.
  unfold get_docs. rewrite decide_True by done.
  rewrite Hmmr, Hsvm, Htfidf. cbn [mbind result_bind Py.bind].
  destruct (_merge_docs [d :: rest; docs_svm; docs_tfidf] topK language
              verbose w) as [docs w'] eqn:Hmerge.
  cbn [fst].
  assert (docs = (_merge_docs [d :: rest; docs_svm; docs_tfidf] topK
                    language verbose w).1) as -> by by rewrite Hmerge.
  rewrite merge_docs_res.
  assert (∃ later, range topK = 0%nat :: later) as [later ->].
  { unfold range. destruct (Z.to_nat topK) eqn:Hn; [lia|]. by eexists. }
  cbn [merge_outer].
  change (merge_inner language verbose w 0%nat
            [d :: rest; docs_svm; docs_tfidf] [] 0%nat)
    with (match merge_body language verbose w 0%nat (d :: rest) [] 0%nat with
          | Continue r c =>
              merge_inner language verbose w 0%nat [docs_svm; docs_tfidf] r c
          | Return r w' => Return r w'
          end).
  rewrite merge_body_unfold. cbn [lookup list_lookup].
  rewrite decide_False by apply not_elem_of_nil.
  destruct (Nat.ltb_spec (budget language) (0 + words_len language d));
    [lia|].
  cbn [app].
  destruct (merge_inner_visits language verbose w 0%nat
              [docs_svm; docs_tfidf] [d]
              (0 + words_len language d)%nat) as (first & Hfirst & _).
  destruct (merge_inner language verbose w 0%nat [docs_svm; docs_tfidf] [d]
              (0 + words_len language d)%nat) as [r c|r w''];
    simpl in Hfirst; subst r.
  - destruct (merge_outer_visits language verbose w later
                [d :: rest; docs_svm; docs_tfidf] (d :: first) c)
      as (more & -> & _).
    by eexists.
  - by eexists.
Qed.

End DispatchProofs.

(** * Further properties of the margin retriever *)

Section SvmMore.
Context `{Services}.

Lemma slice_from_1_length {A} (a : A) (l : list A) (stop : Z) :
  Z.of_nat (length (slice (a :: l) 1 stop))
  = Z.max 0 (Z.min (Z.of_nat (length l))
               (if stop <? 0 then Z.of_nat (length l) + stop else stop - 1)).
Proof.
  unfold slice.
  assert (clamp (Z.of_nat (length (a :: l))) 1 = 1%nat) as ->.
  { unfold clamp. simpl length. destruct (Z.ltb_spec 1 0); lia. }
  simpl drop. rewrite drop_0, length_take. unfold clamp. simpl length.
  destruct (Z.ltb_spec stop 0); lia.
Qed.

(** The rows of the final loop, before the cut: row 0 first, then the
    corpus rows, each once. *)
Lemma svm_rows_shape (similarities : list Q) (k : Z) (N : nat) :
  argsort_permutes →
  length similarities = S N →
  ∃ rest, svm_rows similarities k = Ok (slice (0 :: rest) 1 (k + 1))
          ∧ rest ≡ₚ seqZ 1 (Z.of_nat N).
Proof.
  intros Hperm Hlen. unfold svm_rows.
  pose proof (Hperm (Qopp <$> similarities)) as Hsorted.
  rewrite length_fmap, Hlen in Hsorted.
  assert (0 ∈ argsort (Qopp <$> similarities)) as Hin.
  { rewrite Hsorted. apply elem_of_seqZ. lia. }
  destruct (put_query_first_ok _ Hin) as (swapped & -> & Hhead & Hswap).
  simpl. destruct swapped as [|z rest]; simplify_eq/=.
  rewrite Hsorted in Hswap.
  rewrite seqZ_cons in Hswap by lia.
  apply Permutation_cons_inv in Hswap.
  replace (Z.pred (Z.of_nat (S N))) with (Z.of_nat N) in Hswap by lia.
  by exists rest.
Qed.

Lemma filter_passes_none normalized (rows : list Z) :
  filter (λ row, Is_true (passes normalized None row)) rows = rows.
Proof.
  induction rows as [|row rest IH]; [done|].
  rewrite filter_cons_True by done. by rewrite IH.
Qed.

(** X14. Without a threshold, on a store of [N >= 1] aligned passages, the
    margin retriever returns [min(k, N)] passages when [k >= 0]. A
    negative [k] does not give an empty list: [k = -1] does, but for
    [k <= -2] the slice [sorted_ix[1 : k + 1]] counts from the end and
    [N + k + 1] passages come back (none once that is negative). *)
Theorem svm_no_threshold_length (db : DB) query (k : Z) (N : nat)
    (similarities : list Q) :
  argsort_permutes →
  (1 ≤ N)%nat →
  length (documents db) = N →
  length (metadatas db) = N →
  length (embeddings db) = N →
  Forall (λ row, length row = length (embed_query query)) (embeddings db) →
  linear_svc (embed_query query :: embeddings db) (1 :: replicate N 0)
    = Ok similarities →
  length similarities = S N →
  ∃ docs,
    _get_relevant_doc_svm db query k None = Ok docs
    ∧ Z.of_nat (length docs)
      = Z.max 0 (Z.min (Z.of_nat N)
                   (if k + 1 <? 0 then Z.of_nat N + k + 1 else k)).
Proof.
  intros Hperm HN Hdocs Hmetas Hembs Hwidth Hfit Hscores.
  destruct (svm_rows_shape similarities k N Hperm Hscores)
    as (rest & Hrows & Hrest).
  destruct (normalize_ok similarities N Hscores)
    as (normalized & Hnorm & Hnormlen).
  destruct (svm_collect_ok db normalized None (slice (0 :: rest) 1 (k + 1)) N
              Hdocs Hmetas Hnormlen) as (docs & Hcollect & Hrel).
  { intros row Hrow.
    destruct (slice_from_1 0 rest (k + 1)) as (n & Hslice & _).
    rewrite Hslice in Hrow. apply subseteq_take in Hrow.
    rewrite Hrest in Hrow. apply elem_of_seqZ in Hrow. lia. }
  exists docs. split.
  - unfold _get_relevant_doc_svm.
    rewrite np_concatenate_ok;
      [|intros Hnil; rewrite Hnil in Hembs; simpl in Hembs; lia|done].
    simpl. rewrite Hembs.
    replace (N - 0)%nat with N by lia.
    rewrite Hfit. simpl. rewrite Hrows. simpl. rewrite Hnorm. simpl. done.
  - rewrite filter_passes_none in Hrel.
    rewrite <- (Forall2_length _ _ _ Hrel), slice_from_1_length.
    assert (length rest = N) as ->.
    { rewrite Hrest, length_seqZ. lia. }
    destruct (k + 1 <? 0); lia.
Qed.

(** *** A threshold at or below zero *)

Lemma foldl_Qmin_le_start (rest : list Q) (s : Q) :
  (foldl Qmin s rest <= s)%Q.
Proof.
  revert s. induction rest as [|y rest IH]; intros s; simpl.
  - apply Qle_refl.
  - eapply Qle_trans; [apply IH|apply Q.le_min_l].
Qed.

Lemma foldl_Qmin_le (rest : list Q) (s x : Q) :
  x ∈ s :: rest → (foldl Qmin s rest <= x)%Q.
Proof.
  revert s. induction rest as [|y rest IH]; intros s Hx.
  - apply list_elem_of_singleton in Hx as ->. apply Qle_refl.
  - simpl. apply elem_of_cons in Hx as [->|Hx].
    + eapply Qle_trans; [apply foldl_Qmin_le_start|apply Q.le_min_l].
    + apply elem_of_cons in Hx as [->|Hx].
      * eapply Qle_trans; [apply foldl_Qmin_le_start|apply Q.le_min_r].
      * apply IH. by right.
Qed.

Lemma foldl_Qmax_ge_start (rest : list Q) (s : Q) :
  (s <= foldl Qmax s rest)%Q.
Proof.
  revert s. induction rest as [|y rest IH]; intros s; simpl.
  - apply Qle_refl.
  - eapply Qle_trans; [apply Q.le_max_l|apply IH].
Qed.

(** Every normalized score is at least zero. *)
Lemma normalize_nonneg (similarities normalized : list Q) (v : Q) :
  normalize similarities = Ok normalized →
  v ∈ normalized → (0 <= v)%Q.
Proof.
  unfold normalize. destruct similarities as [|s rest]; [done|].
  cbn [np_max np_min mbind result_bind Py.bind].
  assert (∀ x, x ∈ s :: rest →
               (0 <= (x - foldl Qmin s rest)
                     / (foldl Qmax s rest - foldl Qmin s rest
                        + (1 # 1000000)))%Q) as Hgen.
  { intros x Hx.
    pose proof (foldl_Qmin_le rest s x Hx) as Hlo.
    pose proof (foldl_Qmin_le_start rest s) as Hlos.
    pose proof (foldl_Qmax_ge_start rest s) as Hhis.
    unfold Qdiv. apply Qmult_le_0_compat.
    - lra.
    - apply Qinv_le_0_compat. lra. }
  intros [= <-] Hv.
  apply elem_of_cons in Hv as [->|Hv]; [apply Hgen; left|].
  apply list_elem_of_fmap in Hv as (x & -> & Hx). apply Hgen. by right.
Qed.

Lemma svm_collect_nonpositive (db : DB) normalized (t : Q) (rows : list Z) :
  (∀ v, v ∈ normalized → (0 <= v)%Q) →
  (t <= 0)%Q →
  (∀ row, row ∈ rows → 0 ≤ row < Z.of_nat (length normalized)) →
  svm_collect db normalized (Some t) rows
  = svm_collect db normalized None rows.
Proof.
  intros Hnonneg Ht. induction rows as [|row rest IH]; intros Hrows; [done|].
  simpl.
  destruct (index_in_range normalized row) as (s & -> & Hs);
    [apply Hrows; left|].
  simpl.
  assert (Qle_bool t s = true) as ->.
  { apply Qle_bool_iff. eapply Qle_trans; [exact Ht|].
    apply Hnonneg. by eapply list_elem_of_lookup_2. }
  rewrite IH; [done|]. intros r Hr. apply Hrows. by right.
Qed.

(** X15. A threshold at or below zero filters nothing: normalized scores
    are never negative, so the margin retriever returns what it returns
    without a threshold. *)
Theorem svm_nonpositive_threshold (db : DB) query (k : Z) (t : Q) :
  argsort_permutes →
  (∀ x y similarities,
     linear_svc x y = Ok similarities → length similarities = length x) →
  (t <= 0)%Q →
  _get_relevant_doc_svm db query k (Some t)
  = _get_relevant_doc_svm db query k None.
Proof.
  intros Hperm Hsolver Ht. unfold _get_relevant_doc_svm.
  destruct (np_concatenate (embed_query query) (embeddings db))
    as [x|e] eqn:Hx; [|done].
  assert (∃ N, length x = S N) as [N HN].
  { unfold np_concatenate in Hx. destruct (embeddings db); [done|].
    destruct (forallb _ _); [|done]. injection Hx as <-. by eexists. }
  simpl.
  destruct (linear_svc x (1 :: replicate (length x - 1) 0))
    as [similarities|e] eqn:Hfit; [|done].
  apply Hsolver in Hfit. rewrite HN in Hfit. simpl.
  destruct (svm_rows_ok similarities k N Hperm Hfit)
    as (rows & -> & _ & Hrange & _).
  destruct (normalize_ok similarities N Hfit)
    as (normalized & Hnorm & Hnormlen).
  rewrite Hnorm. simpl.
  apply svm_collect_nonpositive; [|done|].
  - intros v Hv. by eapply normalize_nonneg.
  - intros row Hrow. apply Hrange in Hrow. lia.
Qed.

(** *** Where the swap puts the row it displaces *)

(** X16. When row 0 is not first in the sorted order, the swap exchanges
    it with the first-ranked row and moves nothing else: the row that
    ranked first lands in the slot row 0 held, behind every row that
    ranked between them. *)
Theorem put_query_first_shape (a : Z) (mid tail : list Z) :
  a ≠ 0 →
  0 ∉ mid →
  put_query_first (a :: mid ++ 0 :: tail) = Ok (0 :: mid ++ a :: tail).
Proof.
  intros Ha Hmid.
  assert (list_find (λ x, x = 0) (a :: mid ++ 0 :: tail)
          = Some (S (length mid), 0)) as Hfind.
  { apply list_find_Some. split; [|split; [done|]].
    - simpl. rewrite lookup_app_r by lia. by rewrite Nat.sub_diag.
    - intros j y Hj Hlt. destruct j as [|j]; simpl in Hj.
      + by injection Hj as <-.
      + rewrite lookup_app_l in Hj by lia.
        intros ->. apply Hmid. by eapply list_elem_of_lookup_2. }
  unfold put_query_first, where_first. rewrite Hfind.
  cbn [mbind result_bind Py.bind].
  rewrite decide_True by done.
  assert ((a :: mid ++ 0 :: tail) !! S (length mid) = Some 0) as ->.
  { simpl. rewrite lookup_app_r by lia. by rewrite Nat.sub_diag. }
  simpl. do 2 f_equal.
  replace (length mid) with (length mid + 0)%nat at 1 by lia.
  by rewrite insert_app_r.
Qed.

End SvmMore.

(** * Further properties of the lexical retriever *)

Section TfidfMore.
Context `{Services}.

(** The score the retriever compares for the passage at [position]. *)
Definition score_at (scores : list Q) (position : Z) : Q :=
  default 0%Q (scores !! Z.to_nat position).

(** What numpy promises of [argsort] besides [argsort_permutes]: keys in
    increasing order along the result. *)
Definition argsort_sorts : Prop :=
  ∀ (keys : list Q) (i j : nat) (a b : Z),
    (i ≤ j)%nat →
    argsort keys !! i = Some a →
    argsort keys !! j = Some b →
    (score_at keys a <= score_at keys b)%Q.

Lemma index_out_of_range {A} (l : list A) (i : Z) :
  Z.of_nat (length l) ≤ i → index l i = Raise IndexError.
Proof.
  intros Hi. unfold index.
  destruct (Z.ltb_spec i 0); [lia|].
  destruct (Z.ltb_spec i 0); [lia|].
  by destruct (Z.leb_spec (Z.of_nat (length l)) i); [|lia].
Qed.

Lemma to_documents_stored (all_docs : DB) (positions : list nat) :
  (∀ i, i ∈ positions → (i < length (documents all_docs))%nat
                         ∧ (i < length (metadatas all_docs))%nat) →
  ∃ docs_list,
    to_documents all_docs positions = Ok docs_list
    ∧ Forall2 (λ i d, stored_at all_docs (Z.of_nat i) d) positions docs_list.
Proof.
  induction positions as [|i rest IH]; intros Hin.
  { exists []. split; [done|constructor]. }
  destruct (Hin i) as [Hdoc Hmeta]; [left|].
  destruct IH as (others & Hothers & Hrel).
  { intros j Hj. apply Hin. by right. }
  simpl.
  destruct (index_in_range (documents all_docs) (Z.of_nat i))
    as (c & -> & Hc); [lia|].
  destruct (index_in_range (metadatas all_docs) (Z.of_nat i))
    as (m & -> & Hm); [lia|].
  simpl. rewrite Hothers. simpl. eexists. split; [done|].
  by constructor.
Qed.

(** A store with fewer metadata entries than texts stops the loop of lines
    22-24 at the first text without one. *)
Lemma to_documents_short (all_docs : DB) (n a : nat) :
  (a ≤ length (metadatas all_docs) < a + n)%nat →
  (a + n ≤ length (documents all_docs))%nat →
  to_documents all_docs (seq a n) = Raise IndexError.
Proof.
  revert a. induction n as [|n IH]; intros a Hmetas Hdocs; [lia|].
  simpl.
  destruct (index_in_range (documents all_docs) (Z.of_nat a))
    as (c & -> & _); [lia|].
  simpl.
  destruct (decide (a = length (metadatas all_docs))) as [Heq|Hne].
  - by rewrite index_out_of_range by lia.
  - destruct (index_in_range (metadatas all_docs) (Z.of_nat a))
      as (m & -> & _); [lia|].
    simpl. by rewrite IH by lia.
Qed.

Lemma pick_lookup {A} (l : list A) (ixs : list Z) :
  (∀ i, i ∈ ixs → 0 ≤ i < Z.of_nat (length l)) →
  ∃ out, pick l ixs = Ok out
         ∧ Forall2 (λ i a, l !! Z.to_nat i = Some a) ixs out.
Proof.
  induction ixs as [|i rest IH]; intros Hin.
  { exists []. split; [done|constructor]. }
  destruct IH as (others & Hothers & Hrel).
  { intros j Hj. apply Hin. by right. }
  simpl.
  destruct (index_in_range l i) as (a & -> & Ha); [apply Hin; left|].
  simpl. rewrite Hothers. simpl. eexists. split; [done|].
  by constructor.
Qed.

(** The positions the retriever keeps, counted from the end of the sorted
    order. *)
Lemma top_lookup (order : list Z) (kn i : nat) (p : Z) :
  take kn (reverse (drop (length order - 4) order)) !! i = Some p →
  order !! (length order - S i)%nat = Some p
  ∧ (i < length order)%nat ∧ (i < kn)%nat ∧ (i < 4)%nat.
Proof.
  intros Hp. apply lookup_take_Some in Hp as [Hp Hkn].
  apply reverse_lookup_Some in Hp as [Hp Hlen].
  rewrite length_drop in Hp, Hlen. rewrite lookup_drop in Hp.
  replace (length order - 4 + (length order - (length order - 4) - S i))%nat
    with (length order - S i)%nat in Hp by lia.
  repeat split; [done|lia..].
Qed.

Lemma top_lookup_conv (order : list Z) (kn j : nat) (q : Z) :
  order !! j = Some q →
  (length order - j ≤ kn)%nat →
  (length order - j ≤ 4)%nat →
  take kn (reverse (drop (length order - 4) order))
    !! (length order - S j)%nat = Some q.
Proof.
  intros Hq Hkn Hfour.
  pose proof (lookup_lt_Some _ _ _ Hq) as Hj.
  apply lookup_take_Some. split; [|lia].
  apply reverse_lookup_Some. rewrite length_drop, lookup_drop.
  split; [|lia].
  replace (length order - 4
           + (length order - (length order - 4)
              - S (length order - S j)))%nat with j by lia.
  done.
Qed.

(** X17. On a store without texts the lexical retriever raises
    [ValueError]: [from_documents] cannot build a retriever from no
    document. *)
Theorem tfidf_empty_store_raises (db : DB) query k :
  documents db = [] →
  _get_relevant_doc_tfidf db query k = Raise ValueError.
Proof. intros Hempty. unfold _get_relevant_doc_tfidf. by rewrite Hempty. Qed.

(** X18. On a store with fewer metadata entries than texts the lexical
    retriever raises [IndexError] (line 24) before any scoring. *)
Theorem tfidf_short_metadatas_raises (db : DB) query k :
  (length (metadatas db) < length (documents db))%nat →
  _get_relevant_doc_tfidf db query k = Raise IndexError.
Proof.
  intros Hshort. unfold _get_relevant_doc_tfidf, range.
  rewrite Nat2Z.id.
  by rewrite to_documents_short by lia.
Qed.

(** X19. On a store of [N >= 1] aligned passages, with [k >= 0] and an
    [argsort] that sorts, the lexical retriever returns the passages
    stored at [min(k, 4, N)] distinct positions, best score first: along
    the result scores never increase, and no position left out scores
    higher than one returned. *)
Theorem tfidf_top_scores (db : DB) query (k : Z) (N : nat)
    (scores : list Q) :
  argsort_permutes →
  argsort_sorts →
  (1 ≤ N)%nat →
  length (documents db) = N →
  length (metadatas db) = N →
  tfidf_scores (documents db) query = Ok scores →
  length scores = N →
  0 ≤ k →
  ∃ docs positions,
    _get_relevant_doc_tfidf db query k = Ok docs
    ∧ Forall2 (λ position d, stored_at db position d) positions docs
    ∧ NoDup positions
    ∧ (∀ (i j : nat) p q,
         (i ≤ j)%nat → positions !! i = Some p → positions !! j = Some q →
         (score_at scores q <= score_at scores p)%Q)
    ∧ (∀ p q,
         p ∈ positions → 0 ≤ q < Z.of_nat N → q ∉ positions →
         (score_at scores q <= score_at scores p)%Q).
Proof.
  intros Hperm Hsorts HN Hdocs Hmetas Hscore Hscores Hk.
  unfold _get_relevant_doc_tfidf.
  destruct (to_documents_stored db
              (range (Z.of_nat (length (documents db)))))
    as (docs_list & -> & Hstored).
  { intros i Hi. unfold range in Hi. apply elem_of_seq in Hi. lia. }
  unfold range in Hstored. rewrite Nat2Z.id, Hdocs in Hstored.
  assert (length docs_list = N) as Hlen.
  { rewrite <- (Forall2_length _ _ _ Hstored). apply length_seq. }
  assert (∀ n d, docs_list !! n = Some d → stored_at db (Z.of_nat n) d)
    as Hat.
  { intros n d Hd.
    destruct (Forall2_lookup_r _ _ _ _ _ Hstored Hd) as (i & Hi & Hst).
    apply lookup_seq in Hi as [-> _]. done. }
  assert (page_content <$> docs_list = documents db) as Hcontents.
  { apply list_eq. intros n. rewrite list_lookup_fmap.
    destruct (docs_list !! n) as [d|] eqn:Hd; simpl.
    - destruct (Hat n d Hd) as [Hc _]. by rewrite Nat2Z.id in Hc.
    - symmetry. apply lookup_ge_None. apply lookup_ge_None in Hd. lia. }
  cbn [mbind result_bind Py.bind].
  assert (from_documents docs_list k
          = Ok {| tfidf_docs := docs_list; tfidf_k := 4 |}) as ->.
  { destruct docs_list; [simpl in Hlen; lia|done]. }
  unfold get_relevant_documents.
  cbn [mbind result_bind Py.bind tfidf_docs tfidf_k].
  rewrite Hcontents, Hscore. cbn [mbind result_bind Py.bind].
  rewrite slice_last_four.
  pose proof (Hperm scores) as Horder. rewrite Hscores in Horder.
  set (order := argsort scores) in *.
  assert (length order = N) as Hordlen.
  { rewrite Horder, length_seqZ. lia. }
  assert (NoDup order) as Hnd by (rewrite Horder; apply NoDup_seqZ).
  destruct (pick_lookup docs_list
              (reverse (drop (length order - 4) order)))
    as (result & -> & Hpicked).
  { intros i Hi. rewrite elem_of_reverse in Hi.
    apply (subseteq_drop _ _ i) in Hi.
    rewrite Horder in Hi. apply elem_of_seqZ in Hi. lia. }
  cbn [mbind result_bind Py.bind]. rewrite slice_prefix by done.
  exists (take (Z.to_nat k) result),
         (take (Z.to_nat k) (reverse (drop (length order - 4) order))).
  split; [done|]. split; [|split; [|split]].
  - apply Forall2_take. eapply Forall2_impl; [exact Hpicked|].
    intros i d Hd. apply Hat in Hd.
    unfold stored_at in *. by rewrite Nat2Z.id in Hd.
  - eapply sublist_NoDup; [|apply sublist_take].
    rewrite reverse_Permutation.
    eapply sublist_NoDup; [exact Hnd|apply sublist_drop].
  - intros i j p q Hij Hp Hq.
    apply top_lookup in Hp as (Hp & _). apply top_lookup in Hq as (Hq & _).
    apply (Hsorts scores (length order - S j)%nat (length order - S i)%nat);
      [lia|done|done].
  - intros p q Hp Hq Hout.
    apply list_elem_of_lookup in Hp as [i Hp].
    apply top_lookup in Hp as (Hp & Hi & Hkn & Hfour).
    assert (q ∈ order) as Hin.
    { rewrite Horder. apply elem_of_seqZ. lia. }
    apply list_elem_of_lookup in Hin as [j Hj].
    pose proof (lookup_lt_Some _ _ _ Hj) as Hjlt.
    destruct (decide (j ≤ length order - S i)%nat) as [Hle|Hgt].
    + by apply (Hsorts scores j (length order - S i)%nat).
    + exfalso. apply Hout. eapply list_elem_of_lookup_2.
      apply (top_lookup_conv order (Z.to_nat k) j q); [done|lia|lia].
Qed.

End TfidfMore.

(** * Thresholds, ranks and the dispatch of one retriever *)

Section RankProofs.
Context `{Services}.

(** [lower] lets through whatever the threshold [t] lets through. *)
Definition no_stricter (lower : option Q) (t : Q) : Prop :=
  match lower with
  | None => True
  | Some a => (a <= t)%Q
  end.

Lemma svm_collect_looser (db : DB) normalized (lower : option Q) (t : Q)
    (rows : list Z) (N : nat) :
  no_stricter lower t →
  length (documents db) = N →
  length (metadatas db) = N →
  length normalized = S N →
  (∀ row, row ∈ rows → 1 ≤ row ≤ Z.of_nat N) →
  ∃ loose strict,
    svm_collect db normalized lower rows = Ok loose
    ∧ svm_collect db normalized (Some t) rows = Ok strict
    ∧ strict `sublist_of` loose.
Proof.
  intros Hlower Hdocs Hmetas Hnorm.
  induction rows as [|row rest IH]; intros Hrows.
  { exists [], []. by repeat split. }
  assert (1 ≤ row ≤ Z.of_nat N) as Hrow by (apply Hrows; left).
  destruct IH as (loose & strict & Hloose & Hstrict & Hsub).
  { intros r Hr. apply Hrows. by right. }
  cbn [svm_collect]. rewrite !svm_keep_in_range by lia.
  cbn [mbind result_bind Py.bind].
  destruct (index_in_range (documents db) (row - 1)) as (c & Hc & _);
    [lia|].
  destruct (index_in_range (metadatas db) (row - 1)) as (m & Hm & _);
    [lia|].
  rewrite Hloose, Hstrict, Hc, Hm. cbn [mbind result_bind Py.bind].
  destruct (passes normalized (Some t) row) eqn:Hstrictly.
  - assert (passes normalized lower row = true) as ->.
    { destruct lower as [a|]; [|done]. unfold passes in *.
      destruct (normalized !! Z.to_nat row) as [s|]; [|done].
      apply Qle_bool_iff. apply Qle_bool_iff in Hstrictly.
      simpl in Hlower. lra. }
    do 2 eexists. split; [done|]. split; [done|]. by apply sublist_skip.
  - destruct (passes normalized lower row).
    + do 2 eexists. split; [done|]. split; [done|]. by apply sublist_cons.
    + by do 2 eexists.
Qed.

(** X20. Raising the threshold only removes passages: on a store of
    [N >= 1] aligned passages, what the margin retriever returns under a
    threshold [t] is picked, in order, from what it returns under any
    lower threshold, or under none. *)
Theorem svm_threshold_monotone (db : DB) query (k : Z) (lower : option Q)
    (t : Q) (N : nat) (similarities : list Q) :
  argsort_permutes →
  (1 ≤ N)%nat →
  length (documents db) = N →
  length (metadatas db) = N →
  length (embeddings db) = N →
  Forall (λ row, length row = length (embed_query query)) (embeddings db) →
  linear_svc (embed_query query :: embeddings db) (1 :: replicate N 0)
    = Ok similarities →
  length similarities = S N →
  no_stricter lower t →
  ∃ loose strict,
    _get_relevant_doc_svm db query k lower = Ok loose
    ∧ _get_relevant_doc_svm db query k (Some t) = Ok strict
    ∧ strict `sublist_of` loose.
Proof.
  intros Hperm HN Hdocs Hmetas Hembs Hwidth Hfit Hscores Hlower.
  destruct (svm_rows_ok similarities k N Hperm Hscores)
    as (rows & Hrows & _ & Hrange & _).
  destruct (normalize_ok similarities N Hscores)
    as (normalized & Hnorm & Hnormlen).
  destruct (svm_collect_looser db normalized lower t rows N Hlower
              Hdocs Hmetas Hnormlen Hrange)
    as (loose & strict & Hloose & Hstrict & Hsub).
  exists loose, strict.
  unfold _get_relevant_doc_svm.
  rewrite np_concatenate_ok;
    [|intros Hnil; rewrite Hnil in Hembs; simpl in Hembs; lia|done].
  cbn [mbind result_bind Py.bind length]. rewrite Hembs.
  replace (S N - 1)%nat with N by lia.
  rewrite Hfit. cbn [mbind result_bind Py.bind].
  rewrite Hrows. cbn [mbind result_bind Py.bind].
  rewrite Hnorm. cbn [mbind result_bind Py.bind].
  by rewrite Hloose, Hstrict.
Qed.

Lemma score_at_opp (similarities : list Q) (row : Z) :
  score_at (Qopp <$> similarities) row = (- score_at similarities row)%Q.
Proof.
  unfold score_at. rewrite list_lookup_fmap.
  by destruct (similarities !! Z.to_nat row).
Qed.

(** X21. When the solver already ranks the query first, the rows the
    margin retriever walks come in non-increasing decision score: the
    swap changes nothing and the cut [sorted_ix[1 : k + 1]] keeps the
    sorted order. *)
Theorem svm_rows_descending (similarities : list Q) (k : Z) :
  argsort_sorts →
  argsort (Qopp <$> similarities) !! 0%nat = Some 0 →
  ∃ rows,
    svm_rows similarities k = Ok rows
    ∧ ∀ (i j : nat) p q,
        (i ≤ j)%nat → rows !! i = Some p → rows !! j = Some q →
        (score_at similarities q <= score_at similarities p)%Q.
Proof.
  intros Hsorts Hfirst. unfold svm_rows.
  rewrite (put_query_first_fixed _ Hfirst).
  cbn [mbind result_bind Py.bind]. eexists. split; [done|].
  intros i j p q Hij Hp Hq.
  destruct (argsort (Qopp <$> similarities)) as [|z rest] eqn:Horder;
    [done|].
  destruct (slice_from_1 z rest (k + 1)) as (n & Hslice & _).
  rewrite Hslice in Hp, Hq.
  apply lookup_take_Some in Hp as [Hp _].
  apply lookup_take_Some in Hq as [Hq _].
  pose proof (Hsorts (Qopp <$> similarities) (S i) (S j) p q) as Hle.
  rewrite Horder, !score_at_opp in Hle.
  specialize (Hle ltac:(lia) Hp Hq). lra.
Qed.

(** X22. With a single retriever, [get_docs] never reorders nor adds: what
    it returns for ['mmr'], ['svm'] or ['tfidf'] is picked, in order, from
    the first [topK] passages that retriever returned. *)
Theorem get_docs_single_keeps_rank db query topK threshold language
    search_type verbose w (ranked : list Document) :
  (search_type = "mmr"
   ∧ _get_relevant_doc_mmr db query topK threshold = Ok ranked)
  ∨ (search_type = "svm"
     ∧ _get_relevant_doc_svm db query topK threshold = Ok ranked)
  ∨ (search_type = "tfidf"
     ∧ _get_relevant_doc_tfidf db query topK = Ok ranked) →
  ∃ docs,
    (get_docs db query topK threshold language search_type verbose w).1
    = Ok (Some docs)
    ∧ docs `sublist_of` take (Z.to_nat topK) ranked.
Proof.
  intros Hcase.
  assert (get_docs db query topK threshold language search_type verbose w
          = (Ok (Some (_merge_docs [ranked] topK language verbose w).1),
             (_merge_docs [ranked] topK language verbose w).2)) as ->.
  { unfold get_docs.
    destruct Hcase as [[-> ->]|[[-> ->]|[-> ->]]];
      repeat (first [rewrite decide_True by done
                    |rewrite decide_False by done]);
      cbn [mbind result_bind Py.bind];
      by destruct (_merge_docs [ranked] topK language verbose w). }
  eexists. split; [done|].
  rewrite <- round_robin_single.
  apply merge_docs_in_visit_order_sub.
Qed.

End RankProofs.

(** * The sample argsort sorts *)

Section SampleSorted.

Definition by_key (x y : Z * Q) : Prop := (x.2 <= y.2)%Q.

Lemma insert_key_sorted (x : Z * Q) (l : list (Z * Q)) :
  StronglySorted by_key l → StronglySorted by_key (Sample.insert_key x l).
Proof.
  induction 1 as [|y rest Hsorted IH Hall]; simpl.
  { repeat constructor. }
  destruct (Qle_bool x.2 y.2) eqn:Hle.
  - apply Qle_bool_iff in Hle.
    constructor; [by constructor|].
    constructor; [done|].
    eapply Forall_impl; [exact Hall|].
    intros z Hz. unfold by_key in *. lra.
  - constructor; [done|].
    rewrite insert_key_perm. constructor; [|done].
    unfold by_key.
    destruct (Qlt_le_dec y.2 x.2) as [Hlt|Hge]; [lra|].
    apply Qle_bool_iff in Hge. congruence.
Qed.

Lemma sort_keys_sorted (l : list (Z * Q)) :
  StronglySorted by_key (Sample.sort_keys l).
Proof.
  induction l as [|x rest IH]; simpl; [constructor|].
  by apply insert_key_sorted.
Qed.

Lemma sorted_lookup (l : list (Z * Q)) (i j : nat) (x y : Z * Q) :
  StronglySorted by_key l →
  (i ≤ j)%nat → l !! i = Some x → l !! j = Some y → by_key x y.
Proof.
  intros Hsorted. revert i j.
  induction Hsorted as [|z rest Hsorted IH Hall]; intros i j Hij Hx Hy;
    [done|].
  destruct i as [|i], j as [|j]; simplify_eq/=.
  - unfold by_key. lra.
  - rewrite Forall_forall in Hall. apply Hall.
    by eapply list_elem_of_lookup_2.
  - lia.
  - apply (IH i j); [lia|done|done].
Qed.

Lemma sample_argsort_key (keys : list Q) (i : nat) (a : Z) :
  Sample.argsort keys !! i = Some a →
  ∃ key,
    Sample.sort_keys (zip (seqZ 0 (Z.of_nat (length keys))) keys) !! i
    = Some (a, key)
    ∧ score_at keys a = key.
Proof.
  unfold Sample.argsort. rewrite list_lookup_fmap.
  destruct (Sample.sort_keys _ !! i) as [[a' key]|] eqn:Hi; [|done].
  simpl. intros [= ->]. exists key. split; [done|].
  assert ((a, key) ∈ zip (seqZ 0 (Z.of_nat (length keys))) keys) as Hin.
  { rewrite <- sort_keys_perm. by eapply list_elem_of_lookup_2. }
  apply list_elem_of_lookup in Hin as [n Hn].
  apply lookup_zip_Some in Hn as [Hpos Hkey].
  apply lookup_seqZ in Hpos as [-> _].
  unfold score_at.
  replace (Z.to_nat (0 + Z.of_nat n)) with n by lia. by rewrite Hkey.
Qed.

Lemma sample_argsort_sorts : @argsort_sorts Sample.services.
Proof.
  intros keys i j a b Hij Ha Hb. simpl in Ha, Hb.
  destruct (sample_argsort_key keys i a Ha) as (ka & Hia & <-).
  destruct (sample_argsort_key keys j b Hb) as (kb & Hjb & <-).
  apply (sorted_lookup _ i j (a, score_at keys a) (b, score_at keys b)
           (sort_keys_sorted _) Hij Hia Hjb).
Qed.

Lemma sample_solver_scores_every_row (x : list (list Q)) (y : list Z)
    (similarities : list Q) :
  Sample.linear_svc x y = Ok similarities →
  length similarities = length x.
Proof.
  unfold Sample.linear_svc. case_bool_decide; [|done].
  intros [= <-]. by rewrite length_fmap.
Qed.

End SampleSorted.

(** * The further properties on the sample store *)

Section MoreInstances.
#[local] Existing Instance Sample.services.

Lemma merge_docs_takes_all_that_fit_witness :
  _merge_docs [[Sample.fox; Sample.whale]; [Sample.frog; Sample.wolf]] 2
    "en" false Sample.no_sinks
  = (round_robin [[Sample.fox; Sample.whale]; [Sample.frog; Sample.wolf]] 2,
     log_words false
       (total_words "en"
          (round_robin
             [[Sample.fox; Sample.whale]; [Sample.frog; Sample.wolf]] 2))
       Sample.no_sinks).
Proof.
  apply (@merge_docs_takes_all_that_fit Sample.services
           [[Sample.fox; Sample.whale]; [Sample.frog; Sample.wolf]] 2 "en"
           false Sample.no_sinks).
  - apply (bool_decide_unpack _). vm_compute. exact I.
  - vm_compute. lia.
Defined.

Lemma merge_single_list_prefix_witness :
  (_merge_docs [[Sample.fox; Sample.whale; Sample.frog]] 2 "en" false
     Sample.no_sinks).1
  = take (Z.to_nat 2) [Sample.fox; Sample.whale; Sample.frog].
Proof.
  apply (@merge_single_list_prefix Sample.services
           [Sample.fox; Sample.whale; Sample.frog] 2 "en" false
           Sample.no_sinks).
  - apply (bool_decide_unpack _). vm_compute. exact I.
  - vm_compute. lia.
Defined.

Lemma merge_docs_topK_prefix_witness :
  (_merge_docs Sample.two_lists 1 "en" false Sample.no_sinks).1
    `prefix_of` (_merge_docs Sample.two_lists 3 "en" false Sample.no_sinks).1.
Proof.
  apply (@merge_docs_topK_prefix Sample.services Sample.two_lists 1 3 "en"
           false Sample.no_sinks).
  lia.
Defined.

Lemma merge_docs_nothing_to_take_witness :
  (_merge_docs [[]; []] 3 "en" false Sample.no_sinks).1 = []
  ∧ logs (_merge_docs [[]; []] 3 "en" false Sample.no_sinks).2
    = ([] ++ ["words length: 0"])%list.
Proof.
  apply (@merge_docs_nothing_to_take Sample.services [[]; []] 3 "en" false
           Sample.no_sinks).
  right. by repeat constructor.
Defined.

Lemma merge_docs_oversize_first_witness :
  (_merge_docs [[Sample.oversize; Sample.fox]; [Sample.whale]] 2 "en" false
     Sample.no_sinks).1 = []
  ∧ logs (_merge_docs [[Sample.oversize; Sample.fox]; [Sample.whale]] 2
            "en" false Sample.no_sinks).2
    = ([] ++ ["words length: 0"])%list.
Proof.
  apply (@merge_docs_oversize_first Sample.services
           [Sample.oversize; Sample.fox] [[Sample.whale]] Sample.oversize 2
           "en" false Sample.no_sinks).
  - lia.
  - reflexivity.
  - vm_compute. lia.
Defined.

Lemma get_docs_known_type_contract_witness :
  match
    (get_docs Sample.db5 "red wolf" 2 None "en" "tfidf" false
       Sample.no_sinks).1
  with
  | Ok (Some docs) =>
      NoDup docs
      ∧ (total_words "en" docs ≤ budget "en")%nat
      ∧ logs (get_docs Sample.db5 "red wolf" 2 None "en" "tfidf" false
                Sample.no_sinks).2
        = ([] ++ ["words length: " +:+ str (total_words "en" docs)])%list
  | Ok None => False
  | Raise e =>
      (get_docs Sample.db5 "red wolf" 2 None "en" "tfidf" false
         Sample.no_sinks).2 = Sample.no_sinks
  end.
Proof.
  apply (@get_docs_known_type_contract Sample.services Sample.db5
           "red wolf" 2 None "en" "tfidf" false Sample.no_sinks).
  apply (bool_decide_unpack _). vm_compute. exact I.
Defined.

Lemma get_docs_empty_store_witness :
  get_docs Sample.empty_db "red wolf" 2 None "en" "merge" false
    Sample.no_sinks
  = (Raise ValueError, Sample.no_sinks).
Proof.
  apply (@get_docs_empty_store Sample.services Sample.empty_db "red wolf" 2
           None "en" "merge" false Sample.no_sinks).
  - reflexivity.
  - right. split; [reflexivity|]. eexists. reflexivity.
Defined.

Lemma get_docs_merge_starts_with_mmr_witness :
  ∃ others,
    (get_docs Sample.db5 "red wolf" 2 None "en" "merge" false
       Sample.no_sinks).1
    = Ok (Some (mkDocument "red fox" {[ "page" := MInt 1 ]} :: others)).
Proof.
  eapply (@get_docs_merge_starts_with_mmr Sample.services Sample.db5
            "red wolf" 2 None "en" false Sample.no_sinks).
  - lia.
  - vm_compute. reflexivity.
  - vm_compute. reflexivity.
  - vm_compute. reflexivity.
  - vm_compute. lia.
Defined.

Lemma svm_no_threshold_length_witness :
  ∃ docs,
    _get_relevant_doc_svm Sample.db5 "abc" (- 2) None = Ok docs
    ∧ Z.of_nat (length docs)
      = Z.max 0 (Z.min (Z.of_nat 5)
                   (if - 2 + 1 <? 0 then Z.of_nat 5 + - 2 + 1 else - 2)).
Proof.
  apply (@svm_no_threshold_length Sample.services Sample.db5 "abc" (- 2) 5
           [10%Q; 10%Q; 16%Q; 7%Q; 22%Q; 13%Q]).
  - exact sample_argsort_permutes.
  - lia.
  - reflexivity.
  - reflexivity.
  - reflexivity.
  - repeat constructor.
  - vm_compute. reflexivity.
  - reflexivity.
Defined.

Lemma svm_nonpositive_threshold_witness :
  _get_relevant_doc_svm Sample.db5 "abc" 3 (Some (- (1 # 2))%Q)
  = _get_relevant_doc_svm Sample.db5 "abc" 3 None.
Proof.
  apply (@svm_nonpositive_threshold Sample.services Sample.db5 "abc" 3
           (- (1 # 2))%Q).
  - exact sample_argsort_permutes.
  - exact sample_solver_scores_every_row.
  - vm_compute. discriminate.
Defined.

Lemma put_query_first_shape_witness :
  put_query_first (4 :: [2; 5] ++ 0 :: [1; 3])
  = Ok (0 :: [2; 5] ++ 4 :: [1; 3]).
Proof.
  apply (put_query_first_shape 4 [2; 5] [1; 3]).
  - lia.
  - apply (bool_decide_unpack _). vm_compute. exact I.
Defined.

Lemma tfidf_empty_store_raises_witness :
  _get_relevant_doc_tfidf Sample.empty_db "red wolf" 2 = Raise ValueError.
Proof.
  apply (@tfidf_empty_store_raises Sample.services Sample.empty_db
           "red wolf" 2).
  reflexivity.
Defined.

Lemma tfidf_short_metadatas_raises_witness :
  _get_relevant_doc_tfidf Sample.short_db "red wolf" 2 = Raise IndexError.
Proof.
  apply (@tfidf_short_metadatas_raises Sample.services Sample.short_db
           "red wolf" 2).
  simpl. lia.
Defined.

Lemma tfidf_top_scores_witness :
  ∃ docs positions,
    _get_relevant_doc_tfidf Sample.db5 "red wolf" 2 = Ok docs
    ∧ Forall2 (λ position d, stored_at Sample.db5 position d) positions docs
    ∧ NoDup positions
    ∧ (∀ (i j : nat) p q,
         (i ≤ j)%nat → positions !! i = Some p → positions !! j = Some q →
         (score_at [1%Q; 0%Q; 0%Q; 1%Q; 1%Q] q
          <= score_at [1%Q; 0%Q; 0%Q; 1%Q; 1%Q] p)%Q)
    ∧ (∀ p q,
         p ∈ positions → 0 ≤ q < Z.of_nat 5 → q ∉ positions →
         (score_at [1%Q; 0%Q; 0%Q; 1%Q; 1%Q] q
          <= score_at [1%Q; 0%Q; 0%Q; 1%Q; 1%Q] p)%Q).
Proof.
  apply (@tfidf_top_scores Sample.services Sample.db5 "red wolf" 2 5
           [1%Q; 0%Q; 0%Q; 1%Q; 1%Q]).
  - exact sample_argsort_permutes.
  - exact sample_argsort_sorts.
  - lia.
  - reflexivity.
  - reflexivity.
  - vm_compute. reflexivity.
  - reflexivity.
  - lia.
Defined.

Lemma svm_threshold_monotone_witness :
  ∃ loose strict,
    _get_relevant_doc_svm Sample.db5 "abc" 3 (Some (1 # 4)) = Ok loose
    ∧ _get_relevant_doc_svm Sample.db5 "abc" 3 (Some (1 # 2)) = Ok strict
    ∧ strict `sublist_of` loose.
Proof.
  apply (@svm_threshold_monotone Sample.services Sample.db5 "abc" 3
           (Some (1 # 4)) (1 # 2) 5 [10%Q; 10%Q; 16%Q; 7%Q; 22%Q; 13%Q]).
  - exact sample_argsort_permutes.
  - lia.
  - reflexivity.
  - reflexivity.
  - reflexivity.
  - repeat constructor.
  - vm_compute. reflexivity.
  - reflexivity.
  - vm_compute. discriminate.
Defined.

Lemma svm_rows_descending_witness :
  ∃ rows,
    svm_rows [9%Q; 3%Q; 5%Q] 2 = Ok rows
    ∧ ∀ (i j : nat) p q,
        (i ≤ j)%nat → rows !! i = Some p → rows !! j = Some q →
        (score_at [9%Q; 3%Q; 5%Q] q <= score_at [9%Q; 3%Q; 5%Q] p)%Q.
Proof.
  apply (@svm_rows_descending Sample.services [9%Q; 3%Q; 5%Q] 2).
  - exact sample_argsort_sorts.
  - vm_compute. reflexivity.
Defined.

Lemma get_docs_single_keeps_rank_witness :
  ∃ docs,
    (get_docs Sample.db5 "red wolf" 2 None "en" "mmr" false
       Sample.no_sinks).1 = Ok (Some docs)
    ∧ docs `sublist_of`
        take (Z.to_nat 2)
          (take (Z.to_nat 2)
             (zip_with mkDocument (documents Sample.db5)
                (metadatas Sample.db5))).
Proof.
  apply (@get_docs_single_keeps_rank Sample.services Sample.db5 "red wolf"
           2 None "en" "mmr" false Sample.no_sinks).
  left. split; reflexivity.
Defined.

End MoreInstances.
